(** * RADIOSOUNDPOP2026: the radio-stats proxy and the player's metadata logic

    A shallow embedding of
      - [src/server.ts]  (the [/api/radio-stats] proxy handler),
      - [src/unnamed/part_000], the player component with play history
        (the later [RadioPlayer]),
      - [src/src/components/RadioPlayer.tsx] (the earlier player, no history),
    and the properties the specification states about them. *)

From Stdlib Require Import ZArith Lia.
From stdpp Require Import base strings list gmap.

(** * Part I: the programs *)

(** ** The JavaScript primitives the sources call *)

Module JS.

(** [s.substring(n)]: the string without its first [n] code units. *)
Fixpoint drop_str (n : nat) (s : string) : string :=
  match n, s with
  | O, _ => s
  | S _, EmptyString => EmptyString
  | S k, String _ s' => drop_str k s'
  end.

(** [s.substring(0, n)]. *)
Definition take_str (n : nat) (s : string) : string := String.substring 0 n s.

(** [s.indexOf(sep)], [None] standing for [-1]. *)
Definition indexOf (sep s : string) : option nat := String.index 0 sep s.

(** [s.includes(sep)]. *)
Definition includes (sep s : string) : bool :=
  match indexOf sep s with Some _ => true | None => false end.

(** [s.split(sep)] for a non-empty separator string.  The scan goes left to
    right; [skip] counts the code units of a matched separator that are still
    to be stepped over.  At a position where the separator matches, the
    current piece is closed; otherwise the code unit joins the piece being
    built. *)
Fixpoint split_from (sep : string) (skip : nat) (s : string) : list string :=
  match s with
  | EmptyString => [EmptyString]
  | String c s' =>
      match skip with
      | S k => split_from sep k s'
      | O =>
          if String.prefix sep s
          then EmptyString :: split_from sep (String.length sep - 1) s'
          else match split_from sep 0 s' with
               | piece :: pieces => String c piece :: pieces
               | [] => [String c EmptyString]
               end
      end
  end.

Definition split (sep s : string) : list string := split_from sep 0 s.

(** [parts.join(sep)]. *)
Fixpoint join (sep : string) (parts : list string) : string :=
  match parts with
  | [] => EmptyString
  | [x] => x
  | x :: xs => x +:+ sep +:+ join sep xs
  end.

(** Truthiness of a string: only the empty string is falsy. *)
Definition truthy_str (s : string) : bool :=
  match s with EmptyString => false | _ => true end.

(** [a || b] on strings. *)
Definition or_str (a b : string) : string := if truthy_str a then a else b.

(** [s.replace(pat, by)] with a string pattern: only the first occurrence is
    replaced (the replacement text has no [$] patterns here). *)
Definition replace (pat by_ s : string) : string :=
  match indexOf pat s with
  | Some i => take_str i s +:+ by_ +:+ drop_str (i + String.length pat) s
  | None => s
  end.

(** Parsed JSON values.  A number is a finite double [m * 2^e]; the fields
    of an object are its own properties, each key once. *)
#[warnings="-register-all"]
Inductive Json : Type :=
  | JNull
  | JBool (b : bool)
  | JNum (m e : Z)
  | JStr (s : string)
  | JArr (items : list Json)
  | JObj (fields : list (string * Json)).

(** Truthiness of a parsed JSON value. *)
Definition truthy (v : Json) : bool :=
  match v with
  | JNull => false
  | JBool b => b
  | JNum m _ => negb (m =? 0)%Z
  | JStr s => truthy_str s
  | JArr _ => true
  | JObj _ => true
  end.

(** Own property of an object literal ([None] is [undefined]). *)
Fixpoint field (k : string) (fields : list (string * Json)) : option Json :=
  match fields with
  | [] => None
  | (k', v) :: rest => if String.eqb k k' then Some v else field k rest
  end.

End JS.

(** ** The proxy: [app.get("/api/radio-stats")] of [src/server.ts] *)

Module Server.
Import JS.

(** The [https.Agent] options. *)
Record agent := { rejectUnauthorized : bool }.

(** [httpsAgent]: ignores certificate errors. *)
Definition httpsAgent : agent := {| rejectUnauthorized := false |}.

(** One call of node-fetch's [fetch(url, options)]; [timeout] is in ms. *)
Record request := {
  url : string;
  user_agent : string;
  accept : option string;
  req_agent : option agent;
  timeout : N
}.

(** What the upstream answered.  [body] is the text of the body, or the
    message of the error raised while reading it. *)
Record response := {
  ok : bool;
  status : nat;
  content_type : option string;
  body : string + string
}.

(** [await fetch(...)]: the promise rejects with an error, or resolves. *)
Inductive fetched :=
  | Rejected (message : string)
  | Answered (r : response).

(** What Express sends back: the status code and the JSON body. *)
Inductive reply := Reply (code : nat) (payload : Json).

Definition reply_code (r : reply) : nat := let 'Reply c _ := r in c.
Definition reply_payload (r : reply) : Json := let 'Reply _ p := r in p.

(** [res.json(data)] on a fresh response (status 200). *)
Definition res_json (data : Json) : reply := Reply 200 data.

(** Lines written to the console. *)
Inductive log_line :=
  | LogAttempt (u : string)
  | WarnNonJson (u excerpt : string)
  | WarnStatus (u : string) (code : nat)
  | ErrorFetching (u message : string)
  | ErrorLegacy.

(** The handler's mutable context: the requests issued so far (oldest
    first), the console, and the local [lastError] ([None] is [null]). *)
Record ctx := {
  sent : list request;
  console : list log_line;
  lastError : option string
}.

Definition ctx0 : ctx := {| sent := []; console := []; lastError := None |}.

Definition issue (q : request) (c : ctx) : ctx :=
  {| sent := sent c ++ [q]; console := console c; lastError := lastError c |}.

Definition log (l : log_line) (c : ctx) : ctx :=
  {| sent := sent c; console := console c ++ [l]; lastError := lastError c |}.

Definition set_lastError (m : string) (c : ctx) : ctx :=
  {| sent := sent c; console := console c; lastError := Some m |}.

Definition endpoint_A : string := "https://streaming.fox.srv.br:8150/stats?json=1".
Definition endpoint_B : string := "https://streaming.fox.srv.br:8150/status-json.xsl".
Definition endpoint_C : string := "http://streaming.fox.srv.br:8150/stats?json=1".
Definition legacy_url : string := "https://streaming.fox.srv.br:8150/7.html".

Definition endpoints : list string := [endpoint_A; endpoint_B; endpoint_C].

(** The options of the [fetch] inside the loop. *)
Definition json_request (u : string) : request :=
  {| url := u;
     user_agent := "Mozilla/5.0 (Windows NT 10.0; Win64; x64) AppleWebKit/537.36 (KHTML, like Gecko) Chrome/91.0.4472.124 Safari/537.36";
     accept := Some "application/json, text/plain, */*";
     req_agent := if String.prefix "https" u then Some httpsAgent else None;
     timeout := 4000%N |}.

(** The options of the [fetch] of the legacy status line. *)
Definition legacy_request : request :=
  {| url := legacy_url;
     user_agent := "Mozilla/5.0";
     accept := None;
     req_agent := Some httpsAgent;
     timeout := 3000%N |}.

Section Handler.

(** [JSON.parse]: the parsed value, or the message of the [SyntaxError]. *)
Variable JSON_parse : string -> string + Json.

(** The message of the error with which [response.json()] rejects on a body
    that does not parse, from the URL and the parser's message. *)
Variable invalid_json_message : string -> string -> string.

(** The streaming server and the network, as seen through [fetch]. *)
Variable upstream : request -> fetched.

(** [await response.json()]. *)
Definition response_json (u : string) (r : response) : string + Json :=
  match body r with
  | inl e => inl e
  | inr text =>
      match JSON_parse text with
      | inl e => inl (invalid_json_message u e)
      | inr data => inr data
      end
  end.

(** The [catch (error)] of the loop body. *)
Definition on_fetch_error (u message : string) (c : ctx) : ctx :=
  set_lastError message (log (ErrorFetching u message) c).

(** One iteration of [for (const url of endpoints)]: [Some] is the handler
    returning from inside the loop. *)
Definition attempt (u : string) (c : ctx) : option reply * ctx :=
  let c := log (LogAttempt u) c in
  let c := issue (json_request u) c in
  match upstream (json_request u) with
  | Rejected e => (None, on_fetch_error u e c)
  | Answered r =>
      if ok r then
        if match content_type r with
           | Some ct => truthy_str ct && includes "application/json" ct
           | None => false
           end
        then
          match response_json u r with
          | inr data => (Some (res_json data), c)
          | inl e => (None, on_fetch_error u e c)
          end
        else
          match body r with
          | inl e => (None, on_fetch_error u e c)
          | inr text =>
              match JSON_parse text with
              | inr data => (Some (res_json data), c)
              | inl _ => (None, log (WarnNonJson u (take_str 100 text)) c)
              end
          end
      else (None, log (WarnStatus u (status r)) c)
  end.

Fixpoint try_endpoints (us : list string) (c : ctx) : option reply * ctx :=
  match us with
  | [] => (None, c)
  | u :: rest =>
      match attempt u c with
      | (Some r, c') => (Some r, c')
      | (None, c') => try_endpoints rest c'
      end
  end.

(** The [try] around the legacy [7.html] request. *)
Definition try_legacy (c : ctx) : option reply * ctx :=
  let c := issue legacy_request c in
  match upstream legacy_request with
  | Rejected _ => (None, log ErrorLegacy c)
  | Answered r =>
      if ok r then
        match body r with
        | inl _ => (None, log ErrorLegacy c)
        | inr text =>
            let parts := split "," text in
            if 7 <=? length parts then
              (Some (res_json (JObj match parts !! 6 with
                                    | Some f => [("songtitle", JStr f)]
                                    | None => []
                                    end)), c)
            else (None, c)
        end
      else (None, c)
  end.

(** [String(lastError)] or its message. *)
Definition details_of (e : option string) : string :=
  match e with Some m => m | None => "null" end.

(** The object of the final [res.status(500).json(...)]. *)
Definition error_object (details : string) : Json :=
  JObj [("error", JStr "Failed to fetch metadata from all sources");
        ("details", JStr details)].

Definition failure (c : ctx) : reply :=
  Reply 500 (error_object (details_of (lastError c))).

(** The handler of [GET /api/radio-stats]. *)
Definition radio_stats : reply * ctx :=
  match try_endpoints endpoints ctx0 with
  | (Some r, c) => (r, c)
  | (None, c) =>
      match try_legacy c with
      | (Some r, c') => (r, c')
      | (None, c') => (failure c', c')
      end
  end.

(** *** What the specification calls success of an endpoint *)

(** The JSON value an endpoint of the loop yields: it answered, with an ok
    status, and its body reads and parses. *)
Definition parsed (u : string) : option Json :=
  match upstream (json_request u) with
  | Rejected _ => None
  | Answered r =>
      if ok r then
        match body r with
        | inl _ => None
        | inr text =>
            match JSON_parse text with
            | inr data => Some data
            | inl _ => None
            end
        end
      else None
  end.

(** The 7th comma-delimited field of the legacy status line, when the
    legacy request answered ok with a readable body of at least 7 fields. *)
Definition legacy_title : option string :=
  match upstream legacy_request with
  | Rejected _ => None
  | Answered r =>
      if ok r then
        match body r with
        | inl _ => None
        | inr text =>
            if 7 <=? length (split "," text) then split "," text !! 6 else None
        end
      else None
  end.

(** Every endpoint of the fallback sequence failed. *)
Definition all_failed : bool :=
  match parsed endpoint_A, parsed endpoint_B, parsed endpoint_C, legacy_title with
  | None, None, None, None => true
  | _, _, _, _ => false
  end.

Definition songtitle_object (f : string) : Json := JObj [("songtitle", JStr f)].

(** The four requests of the fallback sequence, in the order of the code. *)
Definition sequence : list request :=
  [json_request endpoint_A; json_request endpoint_B; json_request endpoint_C;
   legacy_request].

End Handler.

(** *** Concrete upstreams *)

(** A parser that knows two documents. *)
Definition toy_parse (text : string) : string + Json :=
  if String.eqb text "null" then inr JNull
  else if String.eqb text "{}" then inr (JObj [])
  else inl "Unexpected token".

Definition toy_message (u e : string) : string :=
  "invalid json response body at " +:+ u +:+ " reason: " +:+ e.

Definition status_line : string := "12,1,40,99,9,128,Artist - Song".

Definition line_ok : response :=
  {| ok := true; status := 200; content_type := Some "text/html";
     body := inr status_line |}.

Definition line_not_found : response :=
  {| ok := false; status := 404; content_type := Some "text/html";
     body := inr status_line |}.

(** Nothing answers. *)
Definition all_down (q : request) : fetched := Rejected "ECONNREFUSED".

(** Only [7.html] answers, with the status line. *)
Definition legacy_only (q : request) : fetched :=
  if String.eqb (url q) legacy_url then Answered line_ok
  else Rejected "ECONNREFUSED".

(** Only [7.html] answers, with status 404 and a body of 7 fields. *)
Definition legacy_404 (q : request) : fetched :=
  if String.eqb (url q) legacy_url then Answered line_not_found
  else Rejected "ECONNREFUSED".

(** The first endpoint announces JSON and sends a page; nothing else
    answers. *)
Definition broken_json (q : request) : fetched :=
  if String.eqb (url q) endpoint_A then
    Answered {| ok := true; status := 200;
                content_type := Some "application/json; charset=utf-8";
                body := inr "<html>" |}
  else Rejected "ETIMEDOUT".

(** The second endpoint is the first to answer with JSON. *)
Definition second_answers (q : request) : fetched :=
  if String.eqb (url q) endpoint_A then
    Answered {| ok := true; status := 200; content_type := Some "text/html";
                body := inr "<html>" |}
  else if String.eqb (url q) endpoint_B then
    Answered {| ok := true; status := 200;
                content_type := Some "application/json"; body := inr "{}" |}
  else Rejected "ECONNREFUSED".

End Server.

(** ** The derivation of (artist, title), shared by both players *)

Module Metadata.
Import JS.

(** [interface RadioMetadata], declared alike by both players. *)
Inductive stream_status := online | offline.

Module RadioMetadata.
Record t := {
  songtitle : string;
  artist : option string;
  title : option string;
  cover : option string;
  status : stream_status
}.
End RadioMetadata.

Definition separator : string := " - ".

(** [const [artistName, ...songParts] = songtitle.split(' - ')], then
    [songParts.join(' - ') || songtitle] and [artistName || fallback]:
    the pair (artist, song title). *)
Definition derive (fallback songtitle : string) : string * string :=
  match split separator songtitle with
  | artistName :: songParts =>
      (or_str artistName fallback,
       or_str (join separator songParts) songtitle)
  | [] => (fallback, songtitle)
  end.

(** [data.songtitle] of a truthy [data] ([None] is [undefined]). *)
Definition songtitle_of (data : Json) : option Json :=
  match data with
  | JObj fields => field "songtitle" fields
  | _ => None
  end.

(** [data && data.songtitle], as a condition. *)
Definition has_songtitle (data : Json) : bool :=
  truthy data &&
  match songtitle_of data with Some v => truthy v | None => false end.

(** [await fetch(METADATA_URL)] followed by [await response.json()]. *)
Inductive stats_outcome :=
  | StatsFetchRejected (e : string)
  | StatsJsonRejected (e : string)
  | StatsData (data : Json).

(** The message of the [TypeError] of calling [split] on a value that is
    not a string. *)
Definition split_type_error : string := "data.songtitle.split is not a function".

(** The exception with which the [try] of [fetchMetadata] ends up in its
    [catch], if any: the request or [json()] rejected, or [songtitle] is a
    truthy value that is not a string. *)
Definition caught (o : stats_outcome) : option string :=
  match o with
  | StatsFetchRejected e => Some e
  | StatsJsonRejected e => Some e
  | StatsData data =>
      if has_songtitle data then
        match songtitle_of data with
        | Some (JStr _) => None
        | _ => Some split_type_error
        end
      else None
  end.

End Metadata.

(** ** The player with play history ([src/unnamed/part_000], the later
    [RadioPlayer] component) *)

Module Player.
Import JS Metadata.

Definition METADATA_URL : string := "/api/radio-stats".

Module HistoryItem.
Record t := {
  songtitle : string;
  artist : string;
  cover : option string;
  timestamp : Z
}.
End HistoryItem.

(** The [useState] cells of the component. *)
Record state := {
  isPlaying : bool;
  volume : Z;
  isMuted : bool;
  isLiked : bool;
  metadata : RadioMetadata.t;
  isLoading : bool;
  progress : QArith_base.Q;
  aiInsight : option string;
  isAiLoading : bool;
  history : list HistoryItem.t;
  showHistory : bool;
  lyrics : option string;
  showLyrics : bool;
  isLyricsLoading : bool
}.

(** The initial values given to [useState]. *)
Definition initial : state := {|
  isPlaying := false;
  volume := 80;
  isMuted := false;
  isLiked := false;
  metadata := {| RadioMetadata.songtitle := "Carregando...";
                 RadioMetadata.artist := None;
                 RadioMetadata.title := None;
                 RadioMetadata.cover := None;
                 RadioMetadata.status := offline |};
  isLoading := true;
  progress := QArith_base.Qmake 0 1;
  aiInsight := None;
  isAiLoading := false;
  history := [];
  showHistory := false;
  lyrics := None;
  showLyrics := false;
  isLyricsLoading := false
|}.

(** Lines written to the console by [fetchMetadata]. *)
Inductive log_line :=
  | ErrorFetchingCover (e : string)
  | LogDeezerFailed
  | ErrorMetadataFetch (e : string).

(** The component, the browser's [localStorage] and the console. *)
Record sys := {
  ui : state;
  localStorage : gmap string string;
  console : list log_line
}.

(** The cover-art services, each reduced to what the code reads from it.
    A failure is the request or [json()] rejecting, or an exception while
    the answer is read. *)
Inductive itunes_outcome :=
  | ItunesFailed (e : string)
  | ItunesArtwork (artworkUrl100 : string)
  | ItunesNoResults.

Inductive deezer_outcome :=
  | DeezerFailed (e : string)
  | DeezerCover (cover_xl : string)
  | DeezerNoData.

(** What the outside answers during one run of [fetchMetadata]: the proxy,
    iTunes (by search term), Deezer (by artist and track), and the clock. *)
Record world := {
  stats : stats_outcome;
  itunes : string → itunes_outcome;
  deezer : string → string → deezer_outcome;
  now : Z
}.

(** Computations that read and write [sys] and may raise an exception
    (its message on the left). *)
Definition M (A : Type) : Type := sys → (string + A) * sys.

#[export] Instance M_ret : MRet M := λ A x σ, (inr x, σ).

#[export] Instance M_bind : MBind M := λ A B f m σ,
  match m σ with
  | (inl e, σ') => (inl e, σ')
  | (inr a, σ') => f a σ'
  end.

Definition throw {A} (e : string) : M A := λ σ, (inl e, σ).

(** [try { body } catch (e) { handler e }]. *)
Definition try_catch {A} (body : M A) (handler : string → M A) : M A := λ σ,
  match body σ with
  | (inl e, σ') => handler e σ'
  | (inr a, σ') => (inr a, σ')
  end.

Definition console_write (l : log_line) : M unit := λ σ,
  (inr (), {| ui := ui σ; localStorage := localStorage σ;
              console := console σ ++ [l] |}).

(** [localStorage.setItem(key, value)]. *)
Definition localStorage_setItem (key value : string) : M unit := λ σ,
  (inr (), {| ui := ui σ; localStorage := <[key := value]> (localStorage σ);
              console := console σ |}).

Definition get_ui : M state := λ σ, (inr (ui σ), σ).

Definition put_ui (s : state) : M unit := λ σ,
  (inr (), {| ui := s; localStorage := localStorage σ; console := console σ |}).

Definition with_metadata (m : RadioMetadata.t) (s : state) : state := {|
  isPlaying := isPlaying s; volume := volume s; isMuted := isMuted s;
  isLiked := isLiked s; metadata := m; isLoading := isLoading s;
  progress := progress s; aiInsight := aiInsight s;
  isAiLoading := isAiLoading s; history := history s;
  showHistory := showHistory s; lyrics := lyrics s;
  showLyrics := showLyrics s; isLyricsLoading := isLyricsLoading s
|}.

Definition with_lyrics (l : option string) (s : state) : state := {|
  isPlaying := isPlaying s; volume := volume s; isMuted := isMuted s;
  isLiked := isLiked s; metadata := metadata s; isLoading := isLoading s;
  progress := progress s; aiInsight := aiInsight s;
  isAiLoading := isAiLoading s; history := history s;
  showHistory := showHistory s; lyrics := l;
  showLyrics := showLyrics s; isLyricsLoading := isLyricsLoading s
|}.

Definition with_showLyrics (b : bool) (s : state) : state := {|
  isPlaying := isPlaying s; volume := volume s; isMuted := isMuted s;
  isLiked := isLiked s; metadata := metadata s; isLoading := isLoading s;
  progress := progress s; aiInsight := aiInsight s;
  isAiLoading := isAiLoading s; history := history s;
  showHistory := showHistory s; lyrics := lyrics s;
  showLyrics := b; isLyricsLoading := isLyricsLoading s
|}.

Definition with_history (h : list HistoryItem.t) (s : state) : state := {|
  isPlaying := isPlaying s; volume := volume s; isMuted := isMuted s;
  isLiked := isLiked s; metadata := metadata s; isLoading := isLoading s;
  progress := progress s; aiInsight := aiInsight s;
  isAiLoading := isAiLoading s; history := h;
  showHistory := showHistory s; lyrics := lyrics s;
  showLyrics := showLyrics s; isLyricsLoading := isLyricsLoading s
|}.

(** [setMetadata(prev => f prev)]; [setMetadata(m)] is the constant [f]. *)
Definition setMetadata (f : RadioMetadata.t → RadioMetadata.t) : M unit :=
  s ← get_ui; put_ui (with_metadata (f (metadata s)) s).

Definition setLyrics (l : option string) : M unit :=
  s ← get_ui; put_ui (with_lyrics l s).

Definition setShowLyrics (b : bool) : M unit :=
  s ← get_ui; put_ui (with_showLyrics b s).

(** [setHistory(prev => f prev)], the updater having effects of its own. *)
Definition setHistory (f : list HistoryItem.t → M (list HistoryItem.t)) : M unit :=
  s ← get_ui; h ← f (history s); s' ← get_ui; put_ui (with_history h s').

Section FetchMetadata.

(** [JSON.stringify] on a history list. *)
Variable JSON_stringify : list HistoryItem.t → string.

Variable w : world.

(** The body of the [try] around the cover lookup; its result is the value
    assigned to [coverUrl] ([None] is [undefined]). *)
Definition lookup_cover (artist songTitle : string) : M (option string) :=
  match itunes w (artist +:+ " " +:+ songTitle) with
  | ItunesFailed e => throw e
  | ItunesArtwork artworkUrl100 =>
      mret (Some (replace "100x100" "600x600" artworkUrl100))
  | ItunesNoResults =>
      try_catch
        (match deezer w artist songTitle with
         | DeezerFailed e => throw e
         | DeezerCover cover_xl => mret (Some cover_xl)
         | DeezerNoData => mret None
         end)
        (λ _, console_write LogDeezerFailed;; mret None)
  end.

Definition fetch_cover (artist songTitle : string) : M (option string) :=
  try_catch (lookup_cover artist songTitle)
            (λ e, console_write (ErrorFetchingCover e);; mret None).

(** The updater passed to [setHistory]. *)
Definition update_history (songTitle artist : string) (coverUrl : option string)
    (prev : list HistoryItem.t) : M (list HistoryItem.t) :=
  if match prev !! 0 with
     | Some lastItem =>
         String.eqb (HistoryItem.songtitle lastItem) songTitle &&
         String.eqb (HistoryItem.artist lastItem) artist
     | None => false
     end
  then mret prev
  else
    let newItem := {| HistoryItem.songtitle := songTitle;
                      HistoryItem.artist := artist;
                      HistoryItem.cover := coverUrl;
                      HistoryItem.timestamp := now w |} in
    let updatedHistory := take 10 (newItem :: prev) in
    localStorage_setItem "radio_history" (JSON_stringify updatedHistory);;
    mret updatedHistory.

(** [await fetch(METADATA_URL)] and [await response.json()]. *)
Definition await_stats : M Json :=
  match stats w with
  | StatsFetchRejected e => throw e
  | StatsJsonRejected e => throw e
  | StatsData data => mret data
  end.

(** The body of the outer [try]. *)
Definition fetchMetadata_try : M unit :=
  data ← await_stats;
  if has_songtitle data then
    match songtitle_of data with
    | Some (JStr songtitle) =>
        let '(artist, songTitle) := derive "SoundPop" songtitle in
        coverUrl ← fetch_cover artist songTitle;
        setMetadata (λ _, {| RadioMetadata.songtitle := songTitle;
                             RadioMetadata.artist := Some artist;
                             RadioMetadata.title := None;
                             RadioMetadata.cover := coverUrl;
                             RadioMetadata.status := online |});;
        setLyrics None;;
        setShowLyrics false;;
        setHistory (update_history songTitle artist coverUrl)
    | _ => throw split_type_error
    end
  else mret ().

(** The metadata the [catch] puts on display. *)
Definition placeholder (prev : RadioMetadata.t) : RadioMetadata.t :=
  {| RadioMetadata.songtitle := "Erro ao carregar metadados";
     RadioMetadata.artist := Some "SoundPop";
     RadioMetadata.title := RadioMetadata.title prev;
     RadioMetadata.cover := RadioMetadata.cover prev;
     RadioMetadata.status := online |}.

Definition fetchMetadata : M unit :=
  try_catch fetchMetadata_try
            (λ error, console_write (ErrorMetadataFetch error);;
                      setMetadata placeholder).

End FetchMetadata.

(** *** Names for the states a run ends in *)

Definition log_to (σ : sys) (lines : list log_line) : sys :=
  {| ui := ui σ; localStorage := localStorage σ; console := console σ ++ lines |}.

(** The test of the history updater: is this track the head of the list? *)
Definition is_head (songTitle artist : string) (prev : list HistoryItem.t) : bool :=
  match prev with
  | lastItem :: _ =>
      String.eqb (HistoryItem.songtitle lastItem) songTitle &&
      String.eqb (HistoryItem.artist lastItem) artist
  | [] => false
  end.

Definition new_item (w : world) (songTitle artist : string)
    (coverUrl : option string) : HistoryItem.t :=
  {| HistoryItem.songtitle := songTitle; HistoryItem.artist := artist;
     HistoryItem.cover := coverUrl; HistoryItem.timestamp := now w |}.

(** The metadata a successful run puts on display. *)
Definition shown (songTitle artist : string) (coverUrl : option string) :
    RadioMetadata.t :=
  {| RadioMetadata.songtitle := songTitle; RadioMetadata.artist := Some artist;
     RadioMetadata.title := None; RadioMetadata.cover := coverUrl;
     RadioMetadata.status := online |}.

Definition refreshed (songTitle artist : string) (coverUrl : option string)
    (s : state) : state :=
  with_showLyrics false (with_lyrics None (with_metadata (shown songTitle artist coverUrl) s)).

(** Successive runs of [fetchMetadata], one per timer callback, in the order
    in which they complete: a run makes all its state updates after its last
    [await], without yielding in between.  The promise each run returns is
    dropped. *)
Definition polls (JSON_stringify : list HistoryItem.t → string)
    (ws : list world) (σ : sys) : sys :=
  foldl (λ σ w, (fetchMetadata JSON_stringify w σ).2) σ ws.

(** *** Concrete inputs *)

(** A serialisation of the history, one line per entry. *)
Definition toy_stringify (h : list HistoryItem.t) : string :=
  join ";" ((λ i, HistoryItem.artist i +:+ " - " +:+ HistoryItem.songtitle i) <$> h).

Definition fresh : sys :=
  {| ui := initial; localStorage := ∅; console := [] |}.

(** The proxy answers [{ songtitle: s }] at clock [t]; no cover is found. *)
Definition playing (s : string) (t : Z) : world :=
  {| stats := StatsData (JObj [("songtitle", JStr s)]);
     itunes := λ _, ItunesNoResults;
     deezer := λ _ _, DeezerNoData;
     now := t |}.

(** The request to the proxy fails. *)
Definition unreachable (t : Z) : world :=
  {| stats := StatsFetchRejected "Failed to fetch";
     itunes := λ _, ItunesNoResults;
     deezer := λ _ _, DeezerNoData;
     now := t |}.

(** The fresh component after one poll that found ["A - 1"]. *)
Definition after_first : sys :=
  (fetchMetadata toy_stringify (playing "A - 1" 1) fresh).2.

(** Twelve different tracks, one per poll. *)
Definition twelve_tracks : list world :=
  [playing "A - 1" 1; playing "A - 2" 2; playing "A - 3" 3; playing "A - 4" 4;
   playing "A - 5" 5; playing "A - 6" 6; playing "A - 7" 7; playing "A - 8" 8;
   playing "A - 9" 9; playing "A - 10" 10; playing "A - 11" 11;
   playing "A - 12" 12].

End Player.

(** ** The earlier player ([src/src/components/RadioPlayer.tsx]) *)

Module PlayerBasic.
Import JS Metadata.

(** The [useState] cells of the component. *)
Record state := {
  isPlaying : bool;
  volume : Z;
  isMuted : bool;
  isLiked : bool;
  metadata : RadioMetadata.t;
  isLoading : bool;
  progress : QArith_base.Q
}.

Definition initial : state := {|
  isPlaying := false;
  volume := 80;
  isMuted := false;
  isLiked := false;
  metadata := {| RadioMetadata.songtitle := "Carregando...";
                 RadioMetadata.artist := None;
                 RadioMetadata.title := None;
                 RadioMetadata.cover := None;
                 RadioMetadata.status := offline |};
  isLoading := true;
  progress := QArith_base.Qmake 0 1
|}.

(** The component and the console ([fetchMetadata] writes one kind of
    line: the error it caught). *)
Record sys := {
  ui : state;
  console : list string
}.

Definition setMetadata (f : RadioMetadata.t → RadioMetadata.t) (σ : sys) : sys :=
  {| ui := {| isPlaying := isPlaying (ui σ); volume := volume (ui σ);
              isMuted := isMuted (ui σ); isLiked := isLiked (ui σ);
              metadata := f (metadata (ui σ));
              isLoading := isLoading (ui σ); progress := progress (ui σ) |};
     console := console σ |}.

Definition console_error (e : string) (σ : sys) : sys :=
  {| ui := ui σ; console := console σ ++ [e] |}.

(** The body of the [try]: the exception raised, or normal completion. *)
Definition fetchMetadata_try (o : stats_outcome) (σ : sys) : (string + unit) * sys :=
  match o with
  | StatsFetchRejected e => (inl e, σ)
  | StatsJsonRejected e => (inl e, σ)
  | StatsData data =>
      if has_songtitle data then
        match songtitle_of data with
        | Some (JStr songtitle) =>
            let '(artist, songTitle) := derive "Rádio Fox" songtitle in
            (inr (),
             setMetadata (λ _, {| RadioMetadata.songtitle := songTitle;
                                  RadioMetadata.artist := Some artist;
                                  RadioMetadata.title := None;
                                  RadioMetadata.cover := None;
                                  RadioMetadata.status := online |}) σ)
        | _ => (inl split_type_error, σ)
        end
      else (inr (), σ)
  end.

(** The metadata the [catch] puts on display. *)
Definition placeholder (prev : RadioMetadata.t) : RadioMetadata.t :=
  {| RadioMetadata.songtitle := "Sintonizando...";
     RadioMetadata.artist := Some "Rádio Fox";
     RadioMetadata.title := RadioMetadata.title prev;
     RadioMetadata.cover := RadioMetadata.cover prev;
     RadioMetadata.status := online |}.

Definition fetchMetadata (o : stats_outcome) (σ : sys) : (string + unit) * sys :=
  match fetchMetadata_try o σ with
  | (inl error, σ') => (inr (), setMetadata placeholder (console_error error σ'))
  | (inr (), σ') => (inr (), σ')
  end.

Definition fresh : sys := {| ui := initial; console := [] |}.

End PlayerBasic.

(** ** The polling effect of both players *)

Module Polling.

(** The functions the components hand to the timer. *)
Inductive callback := FetchMetadata | ProgressTick.

Definition is_fetch (f : callback) : bool :=
  match f with FetchMetadata => true | ProgressTick => false end.

(** What an effect does when it runs: call a function at once, or register
    it with [setInterval(f, delay)], [delay] in ms. *)
Inductive effect_op :=
  | Call (f : callback)
  | SetInterval (f : callback) (delay : N).

(** [fetchMetadata(); const interval = setInterval(fetchMetadata, 10000);]
    the body of the metadata effect, run once at mount (dependencies [[]]). *)
Definition metadata_effect : list effect_op :=
  [Call FetchMetadata; SetInterval FetchMetadata 10000%N].

(** The progress-bar effect: an interval of 1000 ms while playing. *)
Definition progress_effect (isPlaying : bool) : list effect_op :=
  if isPlaying then [SetInterval ProgressTick 1000%N] else [].

(** A registered interval: [elapsed] ms have passed since it last fired
    (or since it was registered). *)
Record interval := {
  handler : callback;
  delay : N;
  elapsed : N
}.

(** The timer side of the event loop: the clock in ms, the registered
    intervals, and the calls made so far with the time of each. *)
Record loop := {
  clock : N;
  intervals : list interval;
  calls : list (N * callback)
}.

Definition idle : loop := {| clock := 0%N; intervals := []; calls := [] |}.

Definition run_op (l : loop) (op : effect_op) : loop :=
  match op with
  | Call f =>
      {| clock := clock l; intervals := intervals l;
         calls := calls l ++ [(clock l, f)] |}
  | SetInterval f d =>
      {| clock := clock l;
         intervals := intervals l ++ [{| handler := f; delay := d; elapsed := 0%N |}];
         calls := calls l |}
  end.

(** Running the body of an effect. *)
Definition run_effect (ops : list effect_op) (l : loop) : loop :=
  foldl run_op l ops.

(** One interval over one ms: whether it fires, and the interval after. *)
Definition advance (i : interval) : bool * interval :=
  if (N.succ (elapsed i) =? delay i)%N
  then (true, {| handler := handler i; delay := delay i; elapsed := 0%N |})
  else (false, {| handler := handler i; delay := delay i;
                  elapsed := N.succ (elapsed i) |}).

(** One ms passes: every interval advances, and those that fire are called
    in the order of their registration. *)
Definition tick (l : loop) : loop :=
  let t := N.succ (clock l) in
  let stepped := advance <$> intervals l in
  {| clock := t;
     intervals := snd <$> stepped;
     calls := calls l ++
              ((λ p, (t, handler (snd p))) <$> filter (λ p, fst p = true) stepped) |}.

(** [n] ms pass. *)
Definition run (n : N) (l : loop) : loop := N.iter n tick l.

(** The times at which [fetchMetadata] was called. *)
Definition fetch_times (l : loop) : list N :=
  fst <$> filter (λ c, is_fetch (snd c) = true) (calls l).

(** The timers of a freshly mounted component: the metadata effect, then
    the progress effect. *)
Definition mounted (isPlaying : bool) : loop :=
  run_effect (metadata_effect ++ progress_effect isPlaying) idle.

(** *** The invariant of the metadata timer *)

(** The times of the first calls: [0, period, ..., k * period]. *)
Definition multiples (period k : N) : list N :=
  (λ j, (period * N.of_nat j)%N) <$> seq 0 (S (N.to_nat k)).

Definition other (i : interval) : Prop := is_fetch (handler i) = false.

(** The timers of the component, [10000 * k + r] ms after mount: the
    metadata interval, [r] ms into its period, and intervals of other
    callbacks; [fetchMetadata] was called at the multiples of the period. *)
Record polling (k r : N) (l : loop) : Prop := {
  polling_intervals :
    ∃ others,
      intervals l =
        {| handler := FetchMetadata; delay := 10000%N; elapsed := r |} :: others ∧
      Forall other others;
  polling_times : fetch_times l = multiples 10000%N k;
  polling_clock : clock l = (10000 * k + r)%N;
  polling_phase : (r < 10000)%N
}.

End Polling.

(** ** The proxy: what ends up in [details] *)

Module ServerErrors.
Import JS Server.

Section Handler.

Variable JSON_parse : string → string + Json.
Variable invalid_json_message : string → string → string.
Variable upstream : request → fetched.

(** The exception the [catch] of the loop receives while [u] is tried, if
    any: the request rejects, the body cannot be read, or [response.json()]
    rejects on a body announced as JSON.  A status that is not ok and a
    page that is not announced as JSON and does not parse raise nothing. *)
Definition raised (u : string) : option string :=
  match upstream (json_request u) with
  | Rejected e => Some e
  | Answered r =>
      if ok r then
        match body r with
        | inl e => Some e
        | inr text =>
            if match content_type r with
               | Some ct => truthy_str ct && includes "application/json" ct
               | None => false
               end
            then match JSON_parse text with
                 | inl e => Some (invalid_json_message u e)
                 | inr _ => None
                 end
            else None
        end
      else None
  end.

(** The last exception raised over the three endpoints, in loop order. *)
Definition last_raised : option string :=
  match raised endpoint_C, raised endpoint_B, raised endpoint_A with
  | Some e, _, _ => Some e
  | None, Some e, _ => Some e
  | None, None, o => o
  end.

End Handler.

(** *** Concrete upstreams *)

(** Every endpoint answers 503; the legacy request is refused. *)
Definition all_unavailable (q : request) : fetched :=
  if String.eqb (url q) legacy_url then Rejected "ECONNREFUSED"
  else Answered {| ok := false; status := 503; content_type := None;
                   body := inr "Service Unavailable" |}.

(** Only [7.html] answers; the title on air has a comma in it. *)
Definition comma_line : string := "12,1,40,99,9,128,Artist - Hello, World".

Definition legacy_with_comma (q : request) : fetched :=
  if String.eqb (url q) legacy_url then
    Answered {| ok := true; status := 200; content_type := Some "text/html";
                body := inr comma_line |}
  else Rejected "ECONNREFUSED".

End ServerErrors.

(** ** The earlier proxies (second and third file of [src/server.ts]) *)

Module ServerEarlier.
Import JS Server.

(** One call of [fetch(url)] or [fetch(url, { headers, timeout })]: the
    options that are given. *)
Record plain_request := {
  target : string;
  given_user_agent : option string;
  given_timeout : option N
}.

(** The request of the first proxy: no options. *)
Definition bare_request : plain_request :=
  {| target := "https://streaming.fox.srv.br:8150/stats?json=1";
     given_user_agent := None;
     given_timeout := None |}.

(** The request of the second proxy: a browser user agent, 5000 ms. *)
Definition browser_request : plain_request :=
  {| target := "https://streaming.fox.srv.br:8150/stats?json=1";
     given_user_agent := Some "Mozilla/5.0 (Windows NT 10.0; Win64; x64) AppleWebKit/537.36 (KHTML, like Gecko) Chrome/91.0.4472.124 Safari/537.36";
     given_timeout := Some 5000%N |}.

(** Console lines of the two proxies. *)
Inductive log_line :=
  | ErrorStatus (code : nat)
  | ErrorProxy (message : string)
  | ErrorProxyDetails (message : string).

Definition not_ok_message : string := "Failed to fetch from streaming server".

Section Handler.

Variable JSON_parse : string → string + Json.
Variable invalid_json_message : string → string → string.
Variable upstream : plain_request → fetched.

(** The body of the [try] of both proxies: the data, or the message of the
    exception. *)
Definition fetch_stats (q : plain_request) : string + Json :=
  match upstream q with
  | Rejected e => inl e
  | Answered r =>
      if ok r then response_json JSON_parse invalid_json_message (target q) r
      else inl not_ok_message
  end.

(** The first proxy. *)
Definition radio_stats_bare : reply * list log_line :=
  match fetch_stats bare_request with
  | inr data => (res_json data, [])
  | inl e =>
      (Reply 500 (JObj [("error", JStr "Failed to fetch metadata")]),
       [ErrorProxy e])
  end.

(** The second proxy: it also logs a status that is not ok, and adds the
    message of the exception to the reply. *)
Definition radio_stats_browser : reply * list log_line :=
  match fetch_stats browser_request with
  | inr data => (res_json data, [])
  | inl e =>
      (Reply 500 (JObj [("error", JStr "Failed to fetch metadata");
                        ("details", JStr e)]),
       match upstream browser_request with
       | Answered r => if ok r then [] else [ErrorStatus (status r)]
       | Rejected _ => []
       end ++ [ErrorProxyDetails e])
  end.

End Handler.

(** *** Concrete upstreams *)

(** The streaming server answers every request alike: a page, status 200. *)
Definition page_for_all : fetched :=
  Answered {| ok := true; status := 200; content_type := Some "text/html";
              body := inr "{}" |}.

End ServerEarlier.

(** ** More inputs for the player *)

Module PlayerInputs.
Import JS Metadata Player.

(** The proxy answers [{ songtitle: s }]; iTunes fails and Deezer would
    have had a cover. *)
Definition itunes_down (s : string) (t : Z) : world :=
  {| stats := StatsData (JObj [("songtitle", JStr s)]);
     itunes := λ _, ItunesFailed "Failed to fetch";
     deezer := λ _ _, DeezerCover "https://cdn.example/cover_xl.jpg";
     now := t |}.

(** The component after one poll, with the lyrics of the track loaded and
    their panel open. *)
Definition reading_lyrics : sys :=
  {| ui := with_showLyrics true (with_lyrics (Some "la la la") (ui after_first));
     localStorage := localStorage after_first;
     console := console after_first |}.

End PlayerInputs.

(** ** The serverless handler (second file of [src/src/App.tsx]) *)

Module Vercel.
Import JS.

Definition status_url : string :=
  "https://streaming.fox.srv.br:8150/status-json.xsl".

(** [await fetch(url)] followed by [await response.json()]. *)
Inductive status_outcome :=
  | StatusRejected (e : string)
  | StatusJsonRejected (e : string)
  | StatusData (data : Json).

(** The iTunes search, reduced to what the handler reads from it: the
    request, [json()] or the reading of the answer raises; or there is a
    first result, with or without [artworkUrl100]; or there is none. *)
Inductive cover_outcome :=
  | CoverFailed (e : string)
  | CoverFirst (artworkUrl100 : option string)
  | CoverNoResults.

(** What the outside answers: Icecast, and iTunes by search term. *)
Record upstream := {
  icecast : status_outcome;
  itunes_search : string → cover_outcome
}.

(** [v?.k] ([None] is [undefined]). *)
Definition chain (v : option Json) (k : string) : option Json :=
  match v with
  | Some (JObj fields) => field k fields
  | _ => None
  end.

(** [data?.icestats?.source]. *)
Definition source_of (data : Json) : option Json :=
  chain (chain (Some data) "icestats") "source".

(** [data?.icestats?.source?.title || "Desconhecido"]. *)
Definition song_of (data : Json) : Json :=
  match chain (source_of data) "title" with
  | Some v => if truthy v then v else JStr "Desconhecido"
  | None => JStr "Desconhecido"
  end.

(** [song.includes(" - ") ? song.split(" - ") : ["", song]]. *)
Definition pieces_of (song : string) : list string :=
  if includes " - " song then split " - " song else [EmptyString; song].

(** The value of [cover] after the lookup, [None] when the lookup raised. *)
Definition cover_value (o : cover_outcome) : option Json :=
  match o with
  | CoverFailed _ => None
  | CoverFirst (Some artworkUrl100) =>
      Some (let c := replace "100x100bb" "300x300bb" artworkUrl100 in
            if truthy_str c then JStr c else JNull)
  | CoverFirst None => Some JNull
  | CoverNoResults => Some JNull
  end.

(** The reply of the [catch]. *)
Definition failure : Server.reply :=
  Server.Reply 500 (JObj [("error", JStr "Erro ao obter dados da rádio")]).

Section Handler.

(** [s.trim()]. *)
Variable trim : string → string.

Definition found (artist title : string) (cover : Json) : Server.reply :=
  Server.Reply 200 (JObj [("artist", JStr (trim artist));
                          ("title", JStr (trim title));
                          ("cover", cover)]).

(** The handler; its [console.error] is left out.  A [song] that is not a
    string makes [includes], [split] or [trim] raise a [TypeError]. *)
Definition handler (up : upstream) : Server.reply :=
  match icecast up with
  | StatusRejected _ => failure
  | StatusJsonRejected _ => failure
  | StatusData data =>
      match song_of data with
      | JStr song =>
          match cover_value (itunes_search up song) with
          | None => failure
          | Some cover =>
              match pieces_of song with
              | artist :: title :: _ => found artist title cover
              | _ => failure
              end
          end
      | _ => failure
      end
  end.

End Handler.

(** *** Concrete inputs *)

(** Removes the spaces at both ends (stands for [trim] on texts whose only
    white space is the space). *)
Fixpoint trim_left (s : string) : string :=
  match s with
  | String c s' => if Ascii.eqb c (Ascii.ascii_of_nat 32) then trim_left s' else s
  | EmptyString => s
  end.

Definition trim_spaces (s : string) : string :=
  String.rev (trim_left (String.rev (trim_left s))).

Definition icestats (source : Json) : Json :=
  JObj [("icestats", JObj [("admin", JStr "icemaster@localhost");
                           ("source", source)])].


(** Two mount points, both with a title; iTunes finds nothing. *)
Definition two_sources : upstream :=
  {| icecast := StatusData (icestats (JArr [JObj [("title", JStr "A - B")];
                                            JObj [("title", JStr "C - D")]]));
     itunes_search := λ _, CoverNoResults |}.

(** One mount point; the iTunes request fails. *)
Definition cover_down : upstream :=
  {| icecast := StatusData (icestats (JObj [("title", JStr "A - B")]));
     itunes_search := λ _, CoverFailed "Failed to fetch" |}.

End Vercel.

(** ** The controls of the player with history ([src/unnamed/part_000]) *)

Module Controls.
Import JS Metadata Player.

Definition STREAM_URL : string := "https://streaming.fox.srv.br:8150/;".

(** What the component does to the audio element, in order.  [Create] is
    [new Audio(url)]; [SetVolume n] is the assignment of [n / 100] to
    [volume]. *)
Inductive audio_op :=
  | Create (url : string)
  | SetVolume (percent : Z)
  | SetSrc (url : string)
  | Load
  | Play
  | Pause.

(** The requests the handlers send out. *)
Inductive outgoing :=
  | InsightRequest (artist : option string) (songtitle : string)
  | LyricsRequest (artist songtitle : string).

(** Console lines of the handlers other than [fetchMetadata]. *)
Inductive note :=
  | ErrorPlayback (e : string)
  | ErrorParseHistory (e : string)
  | ErrorGemini (e : string)
  | ErrorLyrics (e : string).

(** The page: the component with its storage ([core]), the element behind
    [audioRef] ([None] is [null]) as the operations made on it, the requests
    sent and the console lines of the handlers. *)
Record page := {
  core : sys;
  audioRef : option (list audio_op);
  outbox : list outgoing;
  notes : list note
}.

Definition with_isPlaying (b : bool) (s : state) : state := {|
  isPlaying := b; volume := volume s; isMuted := isMuted s;
  isLiked := isLiked s; metadata := metadata s; isLoading := isLoading s;
  progress := progress s; aiInsight := aiInsight s;
  isAiLoading := isAiLoading s; history := history s;
  showHistory := showHistory s; lyrics := lyrics s;
  showLyrics := showLyrics s; isLyricsLoading := isLyricsLoading s
|}.

Definition with_volume (v : Z) (s : state) : state := {|
  isPlaying := isPlaying s; volume := v; isMuted := isMuted s;
  isLiked := isLiked s; metadata := metadata s; isLoading := isLoading s;
  progress := progress s; aiInsight := aiInsight s;
  isAiLoading := isAiLoading s; history := history s;
  showHistory := showHistory s; lyrics := lyrics s;
  showLyrics := showLyrics s; isLyricsLoading := isLyricsLoading s
|}.

Definition with_isMuted (b : bool) (s : state) : state := {|
  isPlaying := isPlaying s; volume := volume s; isMuted := b;
  isLiked := isLiked s; metadata := metadata s; isLoading := isLoading s;
  progress := progress s; aiInsight := aiInsight s;
  isAiLoading := isAiLoading s; history := history s;
  showHistory := showHistory s; lyrics := lyrics s;
  showLyrics := showLyrics s; isLyricsLoading := isLyricsLoading s
|}.

Definition with_isLiked (b : bool) (s : state) : state := {|
  isPlaying := isPlaying s; volume := volume s; isMuted := isMuted s;
  isLiked := b; metadata := metadata s; isLoading := isLoading s;
  progress := progress s; aiInsight := aiInsight s;
  isAiLoading := isAiLoading s; history := history s;
  showHistory := showHistory s; lyrics := lyrics s;
  showLyrics := showLyrics s; isLyricsLoading := isLyricsLoading s
|}.

Definition with_isLoading (b : bool) (s : state) : state := {|
  isPlaying := isPlaying s; volume := volume s; isMuted := isMuted s;
  isLiked := isLiked s; metadata := metadata s; isLoading := b;
  progress := progress s; aiInsight := aiInsight s;
  isAiLoading := isAiLoading s; history := history s;
  showHistory := showHistory s; lyrics := lyrics s;
  showLyrics := showLyrics s; isLyricsLoading := isLyricsLoading s
|}.

Definition with_aiInsight (t : option string) (s : state) : state := {|
  isPlaying := isPlaying s; volume := volume s; isMuted := isMuted s;
  isLiked := isLiked s; metadata := metadata s; isLoading := isLoading s;
  progress := progress s; aiInsight := t;
  isAiLoading := isAiLoading s; history := history s;
  showHistory := showHistory s; lyrics := lyrics s;
  showLyrics := showLyrics s; isLyricsLoading := isLyricsLoading s
|}.

Definition with_isAiLoading (b : bool) (s : state) : state := {|
  isPlaying := isPlaying s; volume := volume s; isMuted := isMuted s;
  isLiked := isLiked s; metadata := metadata s; isLoading := isLoading s;
  progress := progress s; aiInsight := aiInsight s;
  isAiLoading := b; history := history s;
  showHistory := showHistory s; lyrics := lyrics s;
  showLyrics := showLyrics s; isLyricsLoading := isLyricsLoading s
|}.

Definition with_showHistory (b : bool) (s : state) : state := {|
  isPlaying := isPlaying s; volume := volume s; isMuted := isMuted s;
  isLiked := isLiked s; metadata := metadata s; isLoading := isLoading s;
  progress := progress s; aiInsight := aiInsight s;
  isAiLoading := isAiLoading s; history := history s;
  showHistory := b; lyrics := lyrics s;
  showLyrics := showLyrics s; isLyricsLoading := isLyricsLoading s
|}.

Definition with_isLyricsLoading (b : bool) (s : state) : state := {|
  isPlaying := isPlaying s; volume := volume s; isMuted := isMuted s;
  isLiked := isLiked s; metadata := metadata s; isLoading := isLoading s;
  progress := progress s; aiInsight := aiInsight s;
  isAiLoading := isAiLoading s; history := history s;
  showHistory := showHistory s; lyrics := lyrics s;
  showLyrics := showLyrics s; isLyricsLoading := b
|}.

(** A state update on the component of the page. *)
Definition update (f : state → state) (p : page) : page :=
  {| core := {| ui := f (ui (core p)); localStorage := localStorage (core p);
                console := console (core p) |};
     audioRef := audioRef p; outbox := outbox p; notes := notes p |}.

(** [localStorage.setItem(key, value)]. *)
Definition store (key value : string) (p : page) : page :=
  {| core := {| ui := ui (core p);
                localStorage := <[key := value]> (localStorage (core p));
                console := console (core p) |};
     audioRef := audioRef p; outbox := outbox p; notes := notes p |}.

(** Operations on [audioRef.current]; nothing happens on [null]. *)
Definition on_audio (ops : list audio_op) (p : page) : page :=
  {| core := core p;
     audioRef := (λ done, done ++ ops) <$> audioRef p;
     outbox := outbox p; notes := notes p |}.

Definition send (q : outgoing) (p : page) : page :=
  {| core := core p; audioRef := audioRef p; outbox := outbox p ++ [q];
     notes := notes p |}.

Definition console_error (n : note) (p : page) : page :=
  {| core := core p; audioRef := audioRef p; outbox := outbox p;
     notes := notes p ++ [n] |}.

(** The texts the handlers put on display. *)
Definition insight_fallback : string := "N√£o consegui encontrar curiosidades agora. üéµ".
Definition insight_error : string := "Ops! Ocorreu um erro ao buscar curiosidades. üé∏".
Definition lyrics_not_found : string := "Letra n√£o encontrada para esta m√∫sica. üòï".
Definition lyrics_error : string := "Erro ao carregar a letra. Tente novamente mais tarde. üõ†Ô∏è".

(** The volume effect: [audio.volume = isMuted ? 0 : volume / 100]. *)
Definition apply_volume (p : page) : page :=
  on_audio [SetVolume (if isMuted (ui (core p)) then 0 else volume (ui (core p)))] p.

(** [togglePlay]. *)
Definition togglePlay (p : page) : page :=
  match audioRef p with
  | None => p
  | Some _ =>
      if isPlaying (ui (core p))
      then update (with_isPlaying false) (on_audio [Pause; SetSrc EmptyString] p)
      else update (with_isPlaying true)
             (on_audio [SetSrc STREAM_URL; Load; Play]
                (update (with_isLoading true) p))
  end.

(** [handleCanPlay] and [handleError], the listeners of the element. *)
Definition handleCanPlay (p : page) : page := update (with_isLoading false) p.

Definition handleError (p : page) : page :=
  update (with_isLoading false)
    (update (λ s, with_metadata
                    {| RadioMetadata.songtitle := RadioMetadata.songtitle (metadata s);
                       RadioMetadata.artist := RadioMetadata.artist (metadata s);
                       RadioMetadata.title := RadioMetadata.title (metadata s);
                       RadioMetadata.cover := RadioMetadata.cover (metadata s);
                       RadioMetadata.status := offline |} s) p).

(** [String(b)]. *)
Definition string_of_bool (b : bool) : string := if b then "true" else "false".

(** [toggleLike]. *)
Definition toggleLike (p : page) : page :=
  let newState := negb (isLiked (ui (core p))) in
  store "radio_liked" (string_of_bool newState) (update (with_isLiked newState) p).

(** The first part of [fetchLyrics], up to the request.  The function is
    the one of the render that made the handler calling it: [metadata] is
    the value that render saw ([seen]). *)
Definition fetchLyrics (seen : state) (p : page) : page :=
  let m := metadata seen in
  match RadioMetadata.artist m with
  | Some artist =>
      if negb (truthy_str (RadioMetadata.songtitle m)) ||
         negb (truthy_str artist) ||
         String.eqb (RadioMetadata.songtitle m) "Carregando..."
      then p
      else send (LyricsRequest artist (RadioMetadata.songtitle m))
             (update (with_isLyricsLoading true) p)
  | None => p
  end.

(** What the lyrics service answered: the request, [json()] or the reading
    of the answer raises, or [data.lyrics] is read ([None]: [undefined]). *)
Inductive lyrics_outcome :=
  | LyricsFailed (e : string)
  | LyricsData (text : option string).

(** The rest of [fetchLyrics], once the answer is there. *)
Definition fetchLyrics_done (o : lyrics_outcome) (p : page) : page :=
  update (with_isLyricsLoading false)
    match o with
    | LyricsFailed e =>
        update (with_lyrics (Some lyrics_error)) (console_error (ErrorLyrics e) p)
    | LyricsData (Some text) =>
        update (with_lyrics (Some (if truthy_str text then text
                                   else lyrics_not_found))) p
    | LyricsData None => update (with_lyrics (Some lyrics_not_found)) p
    end.

(** The history button.  Its [onClick] is an arrow function made by a
    render: [showHistory] and [showLyrics] in its body are the values that
    render saw ([seen]), whatever the cells hold when the click is handled;
    the setters write to the cells of the page. *)
Definition clickHistory (seen : state) (p : page) : page :=
  let p := update (with_showHistory (negb (showHistory seen))) p in
  if showLyrics seen then update (with_showLyrics false) p else p.

(** The lyrics button, in the same way: [showLyrics], [showHistory] and
    [lyrics] are the values its render saw, and so is the [fetchLyrics] it
    calls. *)
Definition clickLyrics (seen : state) (p : page) : page :=
  let nextShowLyrics := negb (showLyrics seen) in
  let p := update (with_showLyrics nextShowLyrics) p in
  let p := if showHistory seen then update (with_showHistory false) p else p in
  if nextShowLyrics &&
     negb (match lyrics seen with Some l => truthy_str l | None => false end)
  then fetchLyrics seen p else p.

(** The first part of [getAiInsight], up to the request. *)
Definition getAiInsight (p : page) : page :=
  let m := metadata (ui (core p)) in
  if negb (truthy_str (RadioMetadata.songtitle m)) ||
     String.eqb (RadioMetadata.songtitle m) "Carregando..."
  then p
  else send (InsightRequest (RadioMetadata.artist m) (RadioMetadata.songtitle m))
         (update (with_isAiLoading true) p).

(** The insight buttons are [disabled] while [isAiLoading]. *)
Definition clickInsight (p : page) : page :=
  if isAiLoading (ui (core p)) then p else getAiInsight p.

(** What the text generation answered: it raises, or [response.text] is
    read ([None]: [undefined]). *)
Inductive insight_outcome :=
  | InsightFailed (e : string)
  | InsightText (text : option string).

(** The rest of [getAiInsight]. *)
Definition getAiInsight_done (o : insight_outcome) (p : page) : page :=
  update (with_isAiLoading false)
    match o with
    | InsightFailed e =>
        update (with_aiInsight (Some insight_error)) (console_error (ErrorGemini e) p)
    | InsightText (Some text) =>
        update (with_aiInsight (Some (if truthy_str text then text
                                      else insight_fallback))) p
    | InsightText None => update (with_aiInsight (Some insight_fallback)) p
    end.

(** The mute button, and the slider; the volume effect runs after a render
    in which [volume] or [isMuted] changed. *)
Definition clickMute (p : page) : page :=
  apply_volume (update (λ s, with_isMuted (negb (isMuted s)) s) p).

Definition slideVolume (v : Z) (p : page) : page :=
  if (v =? volume (ui (core p)))%Z then p
  else apply_volume (update (with_volume v) p).

(** The page after the audio effect and the volume effect of the first
    render. *)
Definition rendered (storage : gmap string string) : page :=
  apply_volume
    {| core := {| ui := initial; localStorage := storage; console := [] |};
       audioRef := Some [Create STREAM_URL; SetVolume (volume initial)];
       outbox := []; notes := [] |}.

Section Page.

(** [JSON.stringify] on a history, and [JSON.parse] on a stored one: the
    list, or the message of the [SyntaxError] (a stored text that parses to
    something else than a history is not represented). *)
Variable JSON_stringify : list HistoryItem.t → string.
Variable JSON_parse : string → string + list HistoryItem.t.

(** The persistence effect: the like flag and the history are read back
    from [localStorage]. *)
Definition restore (p : page) : page :=
  let p := match localStorage (core p) !! "radio_liked" with
           | Some savedLike =>
               if String.eqb savedLike "true"
               then update (with_isLiked true) p else p
           | None => p
           end in
  match localStorage (core p) !! "radio_history" with
  | Some savedHistory =>
      if truthy_str savedHistory then
        match JSON_parse savedHistory with
        | inr h => update (with_history h) p
        | inl e => console_error (ErrorParseHistory e) p
        end
      else p
  | None => p
  end.

(** The effects of the first render, in the order of the source: the
    element is created and given its volume, the volume effect runs
    ([rendered]), and the stored state is read back.  (The metadata effect
    starts a run of [fetchMetadata], which completes later.) *)
Definition mount (storage : gmap string string) : page :=
  restore (rendered storage).

(** What happens to a mounted page.  A click on a panel button comes with
    the state seen by the render that made its handler: the current one when
    the page was rendered since the last update, an earlier one when several
    events are handled on one render.  The two panel buttons write the cell
    each other reads; the handlers of the other buttons are taken from the
    render of the current state. *)
Inductive event :=
  | Poll (w : world)
  | TogglePlay
  | PlaybackRejected (e : string)
  | CanPlay
  | AudioError
  | ToggleLike
  | ClickHistory (seen : state)
  | ClickLyrics (seen : state)
  | LyricsAnswer (o : lyrics_outcome)
  | ClickInsight
  | InsightAnswer (o : insight_outcome)
  | DismissInsight
  | ClickMute
  | SlideVolume (v : Z)
  | Reload.

Definition step (p : page) (e : event) : page :=
  match e with
  | Poll w =>
      {| core := (fetchMetadata JSON_stringify w (core p)).2;
         audioRef := audioRef p; outbox := outbox p; notes := notes p |}
  | TogglePlay => togglePlay p
  | PlaybackRejected e => console_error (ErrorPlayback e) p
  | CanPlay => handleCanPlay p
  | AudioError => handleError p
  | ToggleLike => toggleLike p
  | ClickHistory seen => clickHistory seen p
  | ClickLyrics seen => clickLyrics seen p
  | LyricsAnswer o => fetchLyrics_done o p
  | ClickInsight => clickInsight p
  | InsightAnswer o => getAiInsight_done o p
  | DismissInsight => update (with_aiInsight None) p
  | ClickMute => clickMute p
  | SlideVolume v => slideVolume v p
  | Reload => mount (localStorage (core p))
  end.

Definition run (events : list event) (p : page) : page := foldl step p events.

(** The handler of a click on a panel button was made by a render that saw
    the two panels as they are when the click is handled. *)
Definition sees_panels (p : page) (e : event) : Prop :=
  match e with
  | ClickHistory seen | ClickLyrics seen =>
      showHistory seen = showHistory (ui (core p)) ∧
      showLyrics seen = showLyrics (ui (core p))
  | _ => True
  end.

(** That holds of every click of a sequence of events, from page [p] on. *)
Fixpoint panels_rendered (events : list event) (p : page) : Prop :=
  match events with
  | [] => True
  | e :: events => sees_panels p e ∧ panels_rendered events (step p e)
  end.

(** What is stored reads back as a short history. *)
Definition reads_back_short : Prop :=
  ∀ h, length h ≤ 10 →
       match JSON_parse (JSON_stringify h) with
       | inr h' => length h' ≤ 10
       | inl _ => True
       end.

End Page.

(** The source of the element: the last one assigned, or the one it was
    created with. *)
Fixpoint source_from (current : string) (ops : list audio_op) : string :=
  match ops with
  | [] => current
  | Create url :: rest => source_from url rest
  | SetSrc url :: rest => source_from url rest
  | _ :: rest => source_from current rest
  end.

Definition source (ops : list audio_op) : string := source_from EmptyString ops.

(** The volume of the element, in hundredths: the last one assigned. *)
Fixpoint volume_from (current : option Z) (ops : list audio_op) : option Z :=
  match ops with
  | [] => current
  | SetVolume n :: rest => volume_from (Some n) rest
  | _ :: rest => volume_from current rest
  end.

Definition element_volume (ops : list audio_op) : option Z := volume_from None ops.

(** The values the slider can give ([min="0"], [max="100"]). *)
Definition in_range (e : event) : Prop :=
  match e with
  | SlideVolume v => (0 ≤ v ≤ 100)%Z
  | _ => True
  end.

(** Did the component ever ask the element to play? *)
Definition has_played (ops : list audio_op) : bool :=
  existsb (λ op, match op with Play => true | _ => false end) ops.

(** A request that names a track on display: not the empty title, not the
    loading placeholder, and for lyrics not the empty artist. *)
Definition names_a_track (q : outgoing) : Prop :=
  match q with
  | InsightRequest _ songtitle =>
      songtitle ≠ EmptyString ∧ songtitle ≠ "Carregando..."
  | LyricsRequest artist songtitle =>
      artist ≠ EmptyString ∧ songtitle ≠ EmptyString ∧
      songtitle ≠ "Carregando..."
  end.

(** The stored history, when it parses, has at most 10 entries. *)
Definition stored_history_short (JSON_parse : string → string + list HistoryItem.t)
    (storage : gmap string string) : Prop :=
  match storage !! "radio_history" with
  | Some saved =>
      match JSON_parse saved with
      | inr h => length h ≤ 10
      | inl _ => True
      end
  | None => True
  end.

(** *** What stays true of a mounted page *)

(** The two panels are not open together. *)
Definition panels_apart (p : page) : Prop :=
  showHistory (ui (core p)) && showLyrics (ui (core p)) = false.

(** The heart on display is what is stored. *)
Definition like_agrees (p : page) : Prop :=
  isLiked (ui (core p)) =
  bool_decide (localStorage (core p) !! "radio_liked" = Some "true").

(** The element follows the play button: while playing its source is the
    stream and it was asked to play; while not, its source is empty once it
    has played, and the stream before. *)
Definition element_follows (p : page) : Prop :=
  match audioRef p with
  | Some ops =>
      if isPlaying (ui (core p))
      then source ops = STREAM_URL ∧ has_played ops = true
      else source ops = if has_played ops then EmptyString else STREAM_URL
  | None => False
  end.

(** The volume of the element is the one on display, within 0..100. *)
Definition volume_follows (p : page) : Prop :=
  (0 ≤ volume (ui (core p)) ≤ 100)%Z ∧
  match audioRef p with
  | Some ops =>
      element_volume ops =
      Some (if isMuted (ui (core p)) then 0%Z else volume (ui (core p)))
  | None => False
  end.

(** The history on display and the stored one are short. *)
Definition history_short (JSON_parse : string → string + list HistoryItem.t)
    (p : page) : Prop :=
  length (history (ui (core p))) ≤ 10 ∧
  stored_history_short JSON_parse (localStorage (core p)).

(** The requests sent name a track. *)
Definition requests_name_tracks (p : page) : Prop :=
  Forall names_a_track (outbox p).

(** *** Concrete inputs *)

(** A parser that knows the history [toy_stringify] writes after ["A - 1"]. *)
Definition toy_parse_history (saved : string) : string + list HistoryItem.t :=
  if String.eqb saved "A - 1"
  then inr [{| HistoryItem.songtitle := "1"; HistoryItem.artist := "A";
               HistoryItem.cover := None; HistoryItem.timestamp := 1 |}]
  else inl "Unexpected token".

(** What the panel buttons read from the render that follows the first poll
    of [afternoon], and from the one that has the lyrics on display (the
    cells they do not read are left at their initial values). *)
Definition seen_track : state :=
  with_metadata (shown "1" "A" None) initial.

Definition seen_lyrics : state :=
  with_showLyrics true (with_lyrics (Some "la la la") seen_track).

(** An afternoon with the player. *)
Definition afternoon : list event :=
  [Poll (playing "A - 1" 1); TogglePlay; CanPlay; ToggleLike;
   ClickLyrics seen_track; LyricsAnswer (LyricsData (Some "la la la"));
   ClickHistory seen_lyrics; SlideVolume 35;
   ClickMute; Poll (unreachable 2); ClickInsight;
   InsightAnswer (InsightFailed "quota"); Reload; TogglePlay; TogglePlay].

End Controls.

(** ** The history as the specification describes it *)

Module HistorySpec.
Import JS Metadata Player.

(** The cover found for a track: the iTunes artwork enlarged, the Deezer
    cover when iTunes has no result, none otherwise. *)
Definition cover_found (w : world) (artist songTitle : string) : option string :=
  match itunes w (artist +:+ " " +:+ songTitle) with
  | ItunesArtwork artworkUrl100 => Some (replace "100x100" "600x600" artworkUrl100)
  | ItunesNoResults =>
      match deezer w artist songTitle with
      | DeezerCover cover_xl => Some cover_xl
      | _ => None
      end
  | ItunesFailed _ => None
  end.

(** The track a metadata update brings: the artist and title derived from
    the songtitle of the answer, with the cover found and the reading of the
    clock; none when the answer has no songtitle or the update fails. *)
Definition track_of (w : world) : option HistoryItem.t :=
  match stats w with
  | StatsData data =>
      if has_songtitle data then
        match songtitle_of data with
        | Some (JStr songtitle) =>
            let '(artist, songTitle) := derive "SoundPop" songtitle in
            Some (new_item w songTitle artist (cover_found w artist songTitle))
        | _ => None
        end
      else None
  | _ => None
  end.

(** The track has the title and the artist of the last one ([None]: there
    is no last one). *)
Definition repeats (last : option HistoryItem.t) (item : HistoryItem.t) : bool :=
  match last with
  | Some lastItem =>
      String.eqb (HistoryItem.songtitle lastItem) (HistoryItem.songtitle item) &&
      String.eqb (HistoryItem.artist lastItem) (HistoryItem.artist item)
  | None => false
  end.


Section Updates.

Variable JSON_stringify : list HistoryItem.t → string.

(** One metadata update, on the history and the storage: a new track (one
    that is not at the head already) is put at the head, the list is cut to
    its first 10 entries, and the cut list is stored under
    ["radio_history"]; any other update leaves both as they are. *)
Definition accept (hs : list HistoryItem.t * gmap string string) (w : world) :
    list HistoryItem.t * gmap string string :=
  match track_of w with
  | Some item =>
      if repeats (head hs.1) item then hs
      else
        let h := take 10 (item :: hs.1) in
        (h, <["radio_history" := JSON_stringify h]> hs.2)
  | None => hs
  end.


End Updates.

End HistorySpec.

(** * Part II: the properties *)

Example split_7html :
  JS.split "," "12,1,40,99,9,128,Artist - Song" =
  ["12"; "1"; "40"; "99"; "9"; "128"; "Artist - Song"].
Proof. reflexivity. Qed.

Example split_empty : JS.split "," "" = [""].
Proof. reflexivity. Qed.

Example split_trailing : JS.split " - " "a - b - " = ["a"; "b"; ""].
Proof. reflexivity. Qed.

Example split_overlap : JS.split " - " "a - - b" = ["a"; "- b"].
Proof. reflexivity. Qed.

Example replace_first : JS.replace "100x100" "600x600" "u/100x100/100x100.jpg" = "u/600x600/100x100.jpg".
Proof. reflexivity. Qed.

(** ** The proxy *)

Module ServerFacts.
Import JS Server.

Section Handler.

Variable JSON_parse : string → string + Json.
Variable invalid_json_message : string → string → string.
Variable upstream : request → fetched.

Local Abbreviation attempt := (Server.attempt JSON_parse invalid_json_message upstream).
Local Abbreviation try_endpoints :=
  (Server.try_endpoints JSON_parse invalid_json_message upstream).
Local Abbreviation try_legacy := (Server.try_legacy upstream).
Local Abbreviation radio_stats :=
  (Server.radio_stats JSON_parse invalid_json_message upstream).
Local Abbreviation parsed := (Server.parsed JSON_parse upstream).
Local Abbreviation legacy_title := (Server.legacy_title upstream).
Local Abbreviation all_failed := (Server.all_failed JSON_parse upstream).

(** *** The loop, one iteration at a time *)

Lemma attempt_reply u c : (attempt u c).1 = res_json <$> parsed u.
Proof.
  unfold Server.attempt, Server.parsed, response_json.
  destruct (upstream (json_request u)) as [e|r]; [done|].
  destruct (ok r); [|done].
  destruct (body r) as [e|text].
  - by destruct (match content_type r with Some ct => _ | None => _ end).
  - destruct (JSON_parse text) as [e|data];
      by destruct (match content_type r with Some ct => _ | None => _ end).
Qed.

Lemma attempt_sent u c : sent (attempt u c).2 = sent c ++ [json_request u].
Proof.
  unfold Server.attempt, response_json.
  destruct (upstream (json_request u)) as [e|r]; [done|].
  destruct (ok r); [|done].
  destruct (match content_type r with Some ct => _ | None => _ end);
    destruct (body r) as [e|text]; try done;
    by destruct (JSON_parse text).
Qed.

Lemma try_endpoints_cons u us c :
  try_endpoints (u :: us) c =
  match parsed u with
  | Some d => (Some (res_json d), (attempt u c).2)
  | None => try_endpoints us (attempt u c).2
  end.
Proof.
  cbn [Server.try_endpoints]. pose proof (attempt_reply u c) as H.
  destruct (attempt u c) as [[r|] c']; cbn [fst snd] in *;
    destruct (parsed u); simplify_eq/=; done.
Qed.

Lemma try_legacy_reply c :
  (try_legacy c).1 = (λ f, res_json (songtitle_object f)) <$> legacy_title.
Proof.
  unfold Server.try_legacy, Server.legacy_title.
  destruct (upstream legacy_request) as [e|r]; [done|].
  destruct (ok r); [|done].
  destruct (body r) as [e|text]; [done|].
  destruct (7 <=? length (split "," text)) eqn:Hlen; [|done].
  apply Nat.leb_le in Hlen.
  destruct (split "," text !! 6) eqn:H6; [done|].
  apply lookup_ge_None in H6. lia.
Qed.

Lemma try_legacy_sent c : sent (try_legacy c).2 = sent c ++ [legacy_request].
Proof.
  unfold Server.try_legacy.
  destruct (upstream legacy_request) as [e|r]; [done|].
  destruct (ok r); [|done].
  destruct (body r) as [e|text]; [done|].
  by destruct (7 <=? length (split "," text)).
Qed.

(** The handler in closed form: which requests it issues and what it
    replies, from the outcome of each endpoint. *)
Lemma radio_stats_cases :
  match parsed endpoint_A, parsed endpoint_B, parsed endpoint_C with
  | Some d, _, _ =>
      sent radio_stats.2 = take 1 sequence ∧ radio_stats.1 = Reply 200 d
  | None, Some d, _ =>
      sent radio_stats.2 = take 2 sequence ∧ radio_stats.1 = Reply 200 d
  | None, None, Some d =>
      sent radio_stats.2 = take 3 sequence ∧ radio_stats.1 = Reply 200 d
  | None, None, None =>
      sent radio_stats.2 = sequence ∧
      match legacy_title with
      | Some f => radio_stats.1 = Reply 200 (songtitle_object f)
      | None => radio_stats.1 = failure radio_stats.2
      end
  end.
Proof.
  unfold Server.radio_stats, endpoints. rewrite !try_endpoints_cons.
  destruct (parsed endpoint_A) as [d|].
  { cbn [fst snd]. by rewrite attempt_sent. }
  destruct (parsed endpoint_B) as [d|].
  { cbn [fst snd]. by rewrite !attempt_sent. }
  destruct (parsed endpoint_C) as [d|].
  { cbn [fst snd]. by rewrite !attempt_sent. }
  cbn [Server.try_endpoints].
  set (c := (attempt endpoint_C _).2).
  pose proof (try_legacy_reply c) as Hr. pose proof (try_legacy_sent c) as Hs.
  assert (sent c = take 3 sequence) as Hc by (subst c; by rewrite !attempt_sent).
  destruct (try_legacy c) as [[r|] c']; cbn [fst snd] in *;
    rewrite Hs, Hc; destruct legacy_title; simplify_eq/=; eauto.
Qed.

Lemma legacy_not_json u : legacy_request ≠ json_request u.
Proof. intros H. apply (f_equal timeout) in H. discriminate H. Qed.

(** *** The properties of the specification *)


(** C2, as amended.  When the legacy fallback is reached, the [7.html]
    request answers with an ok status, and its body split on commas has at
    least 7 fields, the reply is the object [{ songtitle: f }], [f] being the
    7th field. *)
Theorem legacy_songtitle (r : response) (text : string) :
  last (sent radio_stats.2) = Some legacy_request →
  upstream legacy_request = Answered r →
  ok r = true →
  body r = inr text →
  7 ≤ length (split "," text) →
  ∃ f, split "," text !! 6 = Some f ∧
       radio_stats.1 = res_json (songtitle_object f).
Proof.
  intros Hlast Hup Hok Hbody Hlen.
  assert (legacy_title = split "," text !! 6) as Ht.
  { unfold Server.legacy_title. rewrite Hup, Hok, Hbody.
    by apply Nat.leb_le in Hlen as ->. }
  destruct (split "," text !! 6) as [f|] eqn:H6;
    [|apply lookup_ge_None in H6; lia].
  exists f. split; [done|].
  pose proof radio_stats_cases as H.
  destruct (parsed endpoint_A), (parsed endpoint_B), (parsed endpoint_C);
    destruct H as [Hs H]; rewrite Hs in Hlast; simplify_eq/=;
    try (by exfalso; eapply legacy_not_json).
  by rewrite Ht in H.
Qed.

(** C3.  The reply has status 500 exactly when every endpoint of the
    fallback sequence failed (the legacy one by rejecting, by a status that
    is not ok, by an unreadable body or by fewer than 7 fields); it is then
    the generic error object.  In every other case the reply has status 200
    and carries status data: the parsed body of the first endpoint that
    succeeded, or the [{ songtitle }] object of the legacy line. *)
Theorem failure_iff_all_failed :
  (reply_code radio_stats.1 =? 500) = all_failed ∧
  if all_failed
  then radio_stats.1 =
       Reply 500 (error_object (details_of (lastError radio_stats.2)))
  else ∃ data,
       radio_stats.1 = Reply 200 data ∧
       (parsed endpoint_A = Some data ∨
        parsed endpoint_B = Some data ∨
        parsed endpoint_C = Some data ∨
        ∃ f, legacy_title = Some f ∧ data = songtitle_object f).
Proof.
  pose proof radio_stats_cases as H. unfold Server.all_failed.
  destruct (parsed endpoint_A) as [a|]; [destruct H as [_ ->]; naive_solver|].
  destruct (parsed endpoint_B) as [b|]; [destruct H as [_ ->]; naive_solver|].
  destruct (parsed endpoint_C) as [c|]; [destruct H as [_ ->]; naive_solver|].
  destruct H as [_ H].
  destruct legacy_title as [f|]; rewrite H; [naive_solver|done].
Qed.

(** C6, as amended.  The timeout of a request is a constant of its endpoint:
    4000 ms for each of the three JSON endpoints and 3000 ms for the legacy
    [7.html]; the timeouts of the requests of one run are a prefix of
    4000, 4000, 4000, 3000, so no timeout grows from one attempt to the
    next, whatever the earlier attempts returned. *)
Theorem timeouts_fixed :
  Forall (λ q, timeout q =
               if String.eqb (url q) legacy_url then 3000%N else 4000%N)
         (sent radio_stats.2) ∧
  ∃ k, 1 ≤ k ≤ 4 ∧
       timeout <$> sent radio_stats.2 = take k [4000; 4000; 4000; 3000]%N.
Proof.
  pose proof radio_stats_cases as H.
  destruct (parsed endpoint_A), (parsed endpoint_B), (parsed endpoint_C);
    destruct H as [-> _];
    (split; [unfold sequence; cbn [take];
             repeat (apply Forall_cons_2; [reflexivity|]); apply Forall_nil_2|]);
    [exists 1|exists 1|exists 1|exists 1|exists 2|exists 2|exists 3|exists 4];
    (split; [lia|done]).
Qed.

End Handler.

Example run_second_answers :
  radio_stats toy_parse toy_message second_answers =
  (Reply 200 (JObj []),
   {| sent := [json_request endpoint_A; json_request endpoint_B];
      console := [LogAttempt endpoint_A; WarnNonJson endpoint_A "<html>";
                  LogAttempt endpoint_B];
      lastError := None |}).
Proof. reflexivity. Qed.

Example run_broken_json :
  radio_stats toy_parse toy_message broken_json =
  (Reply 500 (JObj [("error", JStr "Failed to fetch metadata from all sources");
                    ("details", JStr "ETIMEDOUT")]),
   {| sent := sequence;
      console :=
        [LogAttempt endpoint_A;
         ErrorFetching endpoint_A
           "invalid json response body at https://streaming.fox.srv.br:8150/stats?json=1 reason: Unexpected token";
         LogAttempt endpoint_B; ErrorFetching endpoint_B "ETIMEDOUT";
         LogAttempt endpoint_C; ErrorFetching endpoint_C "ETIMEDOUT";
         ErrorLegacy];
      lastError := Some "ETIMEDOUT" |}).
Proof. reflexivity. Qed.

Example run_legacy_only :
  (radio_stats toy_parse toy_message legacy_only).1 =
  Reply 200 (JObj [("songtitle", JStr "Artist - Song")]).
Proof. reflexivity. Qed.

Example run_all_down :
  (radio_stats toy_parse toy_message all_down).1 =
  Reply 500 (JObj [("error", JStr "Failed to fetch metadata from all sources");
                   ("details", JStr "ECONNREFUSED")]).
Proof. reflexivity. Qed.

Lemma legacy_songtitle_witness :
  last (sent (radio_stats toy_parse toy_message legacy_only).2) =
    Some legacy_request ∧
  ∃ f, split "," status_line !! 6 = Some f ∧
       (radio_stats toy_parse toy_message legacy_only).1 =
       res_json (songtitle_object f).
Proof.
  split; [reflexivity|].
  apply (legacy_songtitle toy_parse toy_message legacy_only line_ok status_line);
    [reflexivity|reflexivity|reflexivity|reflexivity|vm_compute; lia].
Defined.

(** C2, as stated, fails: [7.html] answers 404 with a body of 7 fields; the
    legacy fallback is reached and the body splits into 7 fields, yet the
    reply is the 500 error object, not [{ songtitle: "Artist - Song" }]. *)
Lemma legacy_not_ok_counterexample :
  last (sent (radio_stats toy_parse toy_message legacy_404).2) =
    Some legacy_request ∧
  legacy_404 legacy_request = Answered line_not_found ∧
  body line_not_found = inr status_line ∧
  7 ≤ length (split "," status_line) ∧
  split "," status_line !! 6 = Some "Artist - Song" ∧
  (radio_stats toy_parse toy_message legacy_404).1 ≠
    res_json (songtitle_object "Artist - Song") ∧
  (radio_stats toy_parse toy_message legacy_404).1 =
    Reply 500 (error_object "ECONNREFUSED").
Proof.
  split; [reflexivity|]. split; [reflexivity|]. split; [reflexivity|].
  split; [vm_compute; lia|]. split; [reflexivity|].
  split; [discriminate|reflexivity].
Qed.

(** C6, as stated, fails: when nothing answers, the run issues requests with
    two different timeouts. *)
Lemma timeouts_differ_counterexample :
  ∃ q1 q2,
    q1 ∈ sent (radio_stats toy_parse toy_message all_down).2 ∧
    q2 ∈ sent (radio_stats toy_parse toy_message all_down).2 ∧
    timeout q1 = 4000%N ∧ timeout q2 = 3000%N ∧
    timeout q1 ≠ timeout q2.
Proof.
  exists (json_request endpoint_A), legacy_request.
  split; [vm_compute; repeat constructor|].
  split; [vm_compute; repeat constructor|].
  split; [reflexivity|]. split; [reflexivity|]. discriminate.
Qed.

End ServerFacts.

Module StringFacts.
Import JS.

Section Separator.
Variable sep : string.
Hypothesis sep_nonempty : sep ≠ EmptyString.

Lemma length_sep_pos : 1 ≤ String.length sep.
Proof using sep_nonempty. destruct sep; [done|cbn; lia]. Qed.

Lemma drop_str_empty k : drop_str k EmptyString = EmptyString.
Proof. by destruct k. Qed.

Lemma append_cons c x y : String c x +:+ y = String c (x +:+ y).
Proof. reflexivity. Qed.

Lemma drop_str_cons c s n :
  1 ≤ n → drop_str n (String c s) = drop_str (n - 1) s.
Proof. destruct n; [lia|]. intros _. cbn. by rewrite Nat.sub_0_r. Qed.

Lemma prefix_length p s : String.prefix p s = true → String.length p ≤ String.length s.
Proof.
  revert s. induction p as [|a p IH]; intros s H; [cbn; lia|].
  destruct s as [|b s]; [done|]. cbn in H |- *.
  destruct (Ascii.ascii_dec a b); [|done]. apply IH in H. lia.
Qed.

Lemma prefix_drop p s :
  String.prefix p s = true → s = p +:+ drop_str (String.length p) s.
Proof.
  revert s. induction p as [|a p IH]; intros s H; [done|].
  destruct s as [|b s]; [done|]. cbn in H.
  destruct (Ascii.ascii_dec a b) as [->|]; [|done].
  rewrite append_cons. f_equal. by apply IH.
Qed.

Lemma split_from_cons k s : ∃ piece pieces, split_from sep k s = piece :: pieces.
Proof.
  revert k. induction s as [|c s IH]; intros k; [by eexists _, _|].
  destruct k as [|k]; cbn [split_from]; [|apply IH].
  destruct (String.prefix sep (String c s)); [by eexists _, _|].
  destruct (IH 0) as (p & ps & ->). by eexists _, _.
Qed.

Lemma split_from_skip k s :
  k ≤ String.length s → split_from sep k s = split_from sep 0 (drop_str k s).
Proof.
  revert k. induction s as [|c s IH]; intros k Hk.
  - cbn in Hk. by replace k with 0 by lia.
  - destruct k as [|k]; [done|]. cbn in Hk. cbn [split_from drop_str].
    apply IH. lia.
Qed.

Lemma join_cons x pieces :
  pieces ≠ [] → join sep (x :: pieces) = x +:+ sep +:+ join sep pieces.
Proof. by destruct pieces. Qed.

Lemma join_cons_char c piece pieces :
  join sep (String c piece :: pieces) = String c (join sep (piece :: pieces)).
Proof. by destruct pieces. Qed.

(** Joining the pieces with the separator gives the string back. *)
Lemma join_split_from s k :
  k ≤ String.length s → join sep (split_from sep k s) = drop_str k s.
Proof using sep_nonempty.
  revert k. induction s as [|c s IH]; intros k Hk.
  - by rewrite drop_str_empty.
  - destruct k as [|k]; cbn [split_from drop_str].
    + destruct (String.prefix sep (String c s)) eqn:Hp.
      * pose proof (prefix_length _ _ Hp) as Hlen. cbn in Hlen.
        pose proof length_sep_pos.
        destruct (split_from_cons (String.length sep - 1) s) as (p & ps & Hs).
        rewrite join_cons by (by rewrite Hs). rewrite IH by lia.
        rewrite <- drop_str_cons with (c := c) by done.
        symmetry. by apply prefix_drop.
      * specialize (IH 0 ltac:(lia)). cbn [drop_str] in IH.
        destruct (split_from_cons 0 s) as (p & ps & Hs). rewrite Hs in IH |- *.
        rewrite join_cons_char. by rewrite IH.
    + cbn in Hk. apply IH. lia.
Qed.

Lemma join_split s : join sep (split sep s) = s.
Proof using sep_nonempty. apply (join_split_from s 0). lia. Qed.

(** The first piece ends at the first occurrence of the separator. *)
Lemma split_at_index s i :
  indexOf sep s = Some i →
  split sep s = take_str i s :: split sep (drop_str (i + String.length sep) s).
Proof using sep_nonempty.
  unfold split, indexOf, take_str. revert i.
  induction s as [|c s IH]; intros i Hi.
  - cbn in Hi. by destruct sep.
  - cbn [String.index] in Hi. cbn [split_from].
    destruct (String.prefix sep (String c s)) eqn:Hp.
    + injection Hi as <-. pose proof length_sep_pos.
      pose proof (prefix_length _ _ Hp) as Hlen. cbn in Hlen.
      cbn [String.substring Nat.add]. f_equal.
      rewrite split_from_skip by lia. f_equal.
      by rewrite drop_str_cons.
    + destruct (String.index 0 sep s) as [n|] eqn:Hn; [|done].
      injection Hi as <-. rewrite (IH n eq_refl). done.
Qed.

Lemma index_decompose s i :
  indexOf sep s = Some i →
  take_str i s +:+ sep +:+ drop_str (i + String.length sep) s = s.
Proof using sep_nonempty.
  unfold indexOf, take_str. revert i.
  induction s as [|c s IH]; intros i Hi.
  - cbn in Hi. by destruct sep.
  - cbn [String.index] in Hi.
    destruct (String.prefix sep (String c s)) eqn:Hp.
    + injection Hi as <-. cbn [String.substring Nat.add String.append].
      symmetry. by apply prefix_drop.
    + destruct (String.index 0 sep s) as [n|] eqn:Hn; [|done].
      injection Hi as <-. cbn [String.substring Nat.add drop_str].
      rewrite append_cons. f_equal. by apply IH.
Qed.

End Separator.

End StringFacts.

(** ** The derivation of (artist, title) *)

Module MetadataFacts.
Import JS Metadata StringFacts.

Lemma separator_nonempty : separator ≠ EmptyString.
Proof. done. Qed.

Lemma or_str_truthy a b : a ≠ EmptyString → or_str a b = a.
Proof. by destruct a. Qed.

(** C9, as amended.  For a songtitle that contains [" - "], with a
    non-empty text before the first separator and a non-empty text after it,
    the derived artist is the text before the first separator, the derived
    title is all the text after it (later separators included), and artist,
    [" - "] and title put together are the songtitle again. *)
Theorem derive_lossless (fallback songtitle : string) (i : nat) :
  indexOf separator songtitle = Some i →
  take_str i songtitle ≠ EmptyString →
  drop_str (i + 3) songtitle ≠ EmptyString →
  derive fallback songtitle = (take_str i songtitle, drop_str (i + 3) songtitle) ∧
  take_str i songtitle +:+ separator +:+ drop_str (i + 3) songtitle = songtitle.
Proof.
  intros Hi Hartist Htitle. split.
  - unfold derive.
    rewrite (split_at_index separator separator_nonempty songtitle i Hi).
    change (String.length separator) with 3.
    fold (split separator (drop_str (i + 3) songtitle)).
    rewrite (join_split separator separator_nonempty).
    by rewrite !or_str_truthy.
  - apply (index_decompose separator separator_nonempty songtitle i Hi).
Qed.

Lemma derive_lossless_witness :
  derive "SoundPop" "A - B - C" = ("A", "B - C") ∧
  "A" +:+ separator +:+ "B - C" = "A - B - C".
Proof.
  apply (derive_lossless "SoundPop" "A - B - C" 1);
    [reflexivity|discriminate|discriminate].
Defined.

(** C9, as stated, fails.  With nothing before the first separator the
    artist is the fallback name, and with nothing after it the title is the
    whole songtitle; in both cases artist, [" - "] and title do not give the
    songtitle back. *)
Lemma derive_lossy_counterexample :
  (indexOf separator " - Song" = Some 0 ∧
   derive "SoundPop" " - Song" = ("SoundPop", "Song") ∧
   take_str 0 " - Song" ≠ "SoundPop" ∧
   "SoundPop" +:+ separator +:+ "Song" ≠ " - Song") ∧
  (indexOf separator "Artist - " = Some 6 ∧
   derive "SoundPop" "Artist - " = ("Artist", "Artist - ") ∧
   drop_str (6 + 3) "Artist - " ≠ "Artist - " ∧
   "Artist" +:+ separator +:+ "Artist - " ≠ "Artist - ").
Proof.
  split; (split; [reflexivity|]); (split; [reflexivity|]); split; discriminate.
Qed.

End MetadataFacts.

(** ** The player with play history *)

Module PlayerFacts.
Import JS Metadata Player HistorySpec.

Section FetchMetadata.

Variable JSON_stringify : list HistoryItem.t → string.

Local Abbreviation fetchMetadata := (Player.fetchMetadata JSON_stringify).
Local Abbreviation fetchMetadata_try := (Player.fetchMetadata_try JSON_stringify).
Local Abbreviation update_history := (Player.update_history JSON_stringify).
Local Abbreviation polls := (Player.polls JSON_stringify).

Lemma run_bind {A B} (m : M A) (f : A → M B) σ :
  (m ≫= f) σ =
  match m σ with
  | (inl e, σ') => (inl e, σ')
  | (inr a, σ') => f a σ'
  end.
Proof. reflexivity. Qed.

Lemma run_ret {A} (x : A) σ : (mret x : M A) σ = (inr x, σ).
Proof. reflexivity. Qed.

(** The cover lookup never raises and only writes to the console. *)
Lemma fetch_cover_total w artist songTitle σ :
  ∃ coverUrl lines,
    fetch_cover w artist songTitle σ = (inr coverUrl, log_to σ lines).
Proof.
  unfold fetch_cover, lookup_cover, try_catch.
  destruct (itunes w _) as [e|art|]; cbn.
  - by eexists None, [_].
  - eexists (Some _), []. unfold log_to. by rewrite app_nil_r; destruct σ.
  - destruct (deezer w artist songTitle) as [e|c|]; cbn.
    + by eexists None, [_].
    + eexists (Some c), []. unfold log_to. by rewrite app_nil_r; destruct σ.
    + eexists None, []. unfold log_to. by rewrite app_nil_r; destruct σ.
Qed.

Lemma with_history_id h s : history s = h → with_history h s = s.
Proof. intros <-. by destruct s. Qed.

(** A run that raises nothing in its [try] and finds a string songtitle. *)
Lemma fetchMetadata_track w σ data songtitle artist songTitle :
  stats w = StatsData data →
  has_songtitle data = true →
  songtitle_of data = Some (JStr songtitle) →
  derive "SoundPop" songtitle = (artist, songTitle) →
  ∃ coverUrl lines,
    fetchMetadata w σ =
    (inr (),
     if is_head songTitle artist (history (ui σ))
     then {| ui := refreshed songTitle artist coverUrl (ui σ);
             localStorage := localStorage σ;
             console := console σ ++ lines |}
     else
       let h := take 10 (new_item w songTitle artist coverUrl :: history (ui σ)) in
       {| ui := with_history h (refreshed songTitle artist coverUrl (ui σ));
          localStorage := <["radio_history" := JSON_stringify h]> (localStorage σ);
          console := console σ ++ lines |}).
Proof.
  intros Hstats Hhas Hsong Hderive.
  destruct (fetch_cover_total w artist songTitle σ) as (coverUrl & lines & Hc).
  exists coverUrl, lines.
  unfold Player.fetchMetadata, try_catch, Player.fetchMetadata_try, await_stats.
  rewrite Hstats, run_bind, run_ret, Hhas, Hsong, Hderive, run_bind, Hc.
  unfold setMetadata, setLyrics, setShowLyrics, setHistory,
    Player.update_history, get_ui, put_ui, localStorage_setItem,
    mbind, M_bind, mret, M_ret.
  cbn -[take]. unfold is_head.
  destruct (history (ui σ)) as [|lastItem rest] eqn:Hh; cbn -[take]; [done|].
  destruct (_ && _); cbn -[take]; [|done].
  by rewrite with_history_id.
Qed.

(** A run whose answer carries no songtitle changes nothing. *)
Lemma fetchMetadata_no_title w σ data :
  stats w = StatsData data →
  has_songtitle data = false →
  fetchMetadata w σ = (inr (), σ).
Proof.
  intros Hstats Hhas.
  unfold Player.fetchMetadata, try_catch, Player.fetchMetadata_try, await_stats.
  by rewrite Hstats, run_bind, run_ret, Hhas.
Qed.

(** A run that ends up in the [catch]. *)
Lemma fetchMetadata_caught w σ e :
  caught (stats w) = Some e →
  fetchMetadata w σ =
  (inr (),
   {| ui := with_metadata (placeholder (metadata (ui σ))) (ui σ);
      localStorage := localStorage σ;
      console := console σ ++ [ErrorMetadataFetch e] |}).
Proof.
  unfold caught, Player.fetchMetadata, try_catch, Player.fetchMetadata_try,
    await_stats.
  destruct (stats w) as [e'|e'|data]; rewrite run_bind.
  - by intros [= ->].
  - by intros [= ->].
  - rewrite run_ret. destruct (has_songtitle data); [|done].
    destruct (songtitle_of data) as [[]|]; by intros [= <-].
Qed.

(** [fetchMetadata] never raises. *)
Lemma fetchMetadata_total w σ : (fetchMetadata w σ).1 = inr ().
Proof.
  unfold Player.fetchMetadata, try_catch.
  by destruct (fetchMetadata_try w σ) as [[e|[]] σ'].
Qed.

(** What one run does to the history and to [localStorage]: nothing, or a
    new entry stamped with the clock goes to the head, the list is cut to
    10 entries, and the result is stored under ["radio_history"]. *)
Lemma fetchMetadata_history w σ :
  (history (ui (fetchMetadata w σ).2) = history (ui σ) ∧
   localStorage (fetchMetadata w σ).2 = localStorage σ) ∨
  (∃ item,
     HistoryItem.timestamp item = now w ∧
     history (ui (fetchMetadata w σ).2) = take 10 (item :: history (ui σ)) ∧
     localStorage (fetchMetadata w σ).2 =
     <["radio_history" := JSON_stringify (take 10 (item :: history (ui σ)))]>
       (localStorage σ)).
Proof.
  destruct (caught (stats w)) as [e|] eqn:Hcaught.
  { left. by rewrite (fetchMetadata_caught w σ e Hcaught). }
  unfold caught in Hcaught.
  destruct (stats w) as [|?|data] eqn:Hstats; [done..|].
  destruct (has_songtitle data) eqn:Hhas;
    [|left; by rewrite (fetchMetadata_no_title w σ data Hstats Hhas)].
  destruct (songtitle_of data) as [[| | |songtitle| |]|] eqn:Hsong; try done.
  destruct (derive "SoundPop" songtitle) as [artist songTitle] eqn:Hderive.
  destruct (fetchMetadata_track w σ data songtitle artist songTitle
              Hstats Hhas Hsong Hderive) as (coverUrl & lines & ->).
  destruct (is_head songTitle artist (history (ui σ))); [by left|].
  right. by exists (new_item w songTitle artist coverUrl).
Qed.









(** C5.  When the (artist, title) derived from the answer are those of the
    head of the history, the run leaves the history as it is and stores
    nothing. *)
Theorem duplicate_not_reappended (w : world) (σ : sys) (data : Json)
    (songtitle artist songTitle : string) (lastItem : HistoryItem.t) :
  stats w = StatsData data →
  songtitle_of data = Some (JStr songtitle) →
  derive "SoundPop" songtitle = (artist, songTitle) →
  history (ui σ) !! 0 = Some lastItem →
  HistoryItem.songtitle lastItem = songTitle →
  HistoryItem.artist lastItem = artist →
  history (ui (fetchMetadata w σ).2) = history (ui σ) ∧
  localStorage (fetchMetadata w σ).2 = localStorage σ.
Proof.
  intros Hstats Hsong Hderive Hhead Htitle Hartist.
  destruct (has_songtitle data) eqn:Hhas;
    [|by rewrite (fetchMetadata_no_title w σ data Hstats Hhas)].
  destruct (fetchMetadata_track w σ data songtitle artist songTitle
              Hstats Hhas Hsong Hderive) as (coverUrl & lines & ->).
  assert (is_head songTitle artist (history (ui σ)) = true) as ->; [|done].
  destruct (history (ui σ)) as [|item rest]; simplify_eq/=.
  by rewrite !String.eqb_refl.
Qed.

(** C10.  When a run ends up in its [catch], the history and [localStorage]
    are as before, and so is every state cell but [metadata], of which only
    [status], [songtitle] and [artist] are set. *)
Theorem failure_frame (w : world) (σ : sys) (e : string) :
  caught (stats w) = Some e →
  history (ui (fetchMetadata w σ).2) = history (ui σ) ∧
  localStorage (fetchMetadata w σ).2 = localStorage σ ∧
  ui (fetchMetadata w σ).2 =
    {| isPlaying := isPlaying (ui σ); volume := volume (ui σ);
       isMuted := isMuted (ui σ); isLiked := isLiked (ui σ);
       metadata :=
         {| RadioMetadata.songtitle := "Erro ao carregar metadados";
            RadioMetadata.artist := Some "SoundPop";
            RadioMetadata.title := RadioMetadata.title (metadata (ui σ));
            RadioMetadata.cover := RadioMetadata.cover (metadata (ui σ));
            RadioMetadata.status := online |};
       isLoading := isLoading (ui σ); progress := progress (ui σ);
       aiInsight := aiInsight (ui σ); isAiLoading := isAiLoading (ui σ);
       history := history (ui σ); showHistory := showHistory (ui σ);
       lyrics := lyrics (ui σ); showLyrics := showLyrics (ui σ);
       isLyricsLoading := isLyricsLoading (ui σ) |}.
Proof.
  intros Hcaught. by rewrite (fetchMetadata_caught w σ e Hcaught).
Qed.

End FetchMetadata.

Example twelve_tracks_history :
  HistoryItem.songtitle <$> history (ui (polls toy_stringify twelve_tracks fresh)) =
  ["12"; "11"; "10"; "9"; "8"; "7"; "6"; "5"; "4"; "3"].
Proof. reflexivity. Qed.

Lemma duplicate_not_reappended_witness :
  history (ui (fetchMetadata toy_stringify (playing "A - 1" 2) after_first).2) =
    history (ui after_first) ∧
  localStorage (fetchMetadata toy_stringify (playing "A - 1" 2) after_first).2 =
    localStorage after_first.
Proof.
  apply (duplicate_not_reappended toy_stringify (playing "A - 1" 2) after_first
           (JObj [("songtitle", JStr "A - 1")]) "A - 1" "A" "1"
           {| HistoryItem.songtitle := "1"; HistoryItem.artist := "A";
              HistoryItem.cover := None; HistoryItem.timestamp := 1 |});
    reflexivity.
Defined.

Lemma failure_frame_witness :
  history (ui (fetchMetadata toy_stringify (unreachable 2) after_first).2) =
    history (ui after_first) ∧
  localStorage (fetchMetadata toy_stringify (unreachable 2) after_first).2 =
    localStorage after_first.
Proof.
  pose proof (failure_frame toy_stringify (unreachable 2) after_first
                "Failed to fetch" eq_refl) as (Hh & Hls & _).
  split; [exact Hh|exact Hls].
Defined.

End PlayerFacts.

(** ** The earlier player *)

Module PlayerBasicFacts.
Import JS Metadata PlayerBasic.

(** A run that ends up in the [catch]. *)
Lemma basic_fetchMetadata_caught o σ e :
  caught o = Some e →
  fetchMetadata o σ = (inr (), setMetadata placeholder (console_error e σ)).
Proof.
  unfold caught, fetchMetadata, fetchMetadata_try.
  destruct o as [e'|e'|data]; [by intros [= ->]..|].
  destruct (has_songtitle data); [|done].
  destruct (songtitle_of data) as [[]|]; by intros [= <-].
Qed.

(** [fetchMetadata] never raises. *)
Lemma basic_fetchMetadata_total o σ : (fetchMetadata o σ).1 = inr ().
Proof.
  unfold fetchMetadata. by destruct (fetchMetadata_try o σ) as [[e|[]] σ'].
Qed.

Example basic_unreachable :
  fetchMetadata (StatsFetchRejected "Failed to fetch") fresh =
  (inr (),
   {| ui := {| isPlaying := false; volume := 80; isMuted := false;
               isLiked := false;
               metadata := {| RadioMetadata.songtitle := "Sintonizando...";
                              RadioMetadata.artist := Some "Rádio Fox";
                              RadioMetadata.title := None;
                              RadioMetadata.cover := None;
                              RadioMetadata.status := online |};
               isLoading := true; progress := QArith_base.Qmake 0 1 |};
      console := ["Failed to fetch"] |}).
Proof. reflexivity. Qed.

End PlayerBasicFacts.

(** ** Failures of the metadata fetch, in both players *)

Module FailureFacts.
Import JS Metadata.

(** C7.  When the request to the proxy or the reading of its answer fails
    (or [songtitle] is not a string), [fetchMetadata] still completes
    normally in both players; it writes the error to the console and
    nowhere else, and the metadata on display becomes the fixed placeholder
    (["Erro ao carregar metadados"] by ["SoundPop"], or ["Sintonizando..."]
    by ["Rádio Fox"] in the earlier player), with the status online; the
    state of the component after the failure does not depend on the error. *)
Theorem fetch_failure_degrades (JSON_stringify : list Player.HistoryItem.t → string)
    (w : Player.world) (σ : Player.sys) (σb : PlayerBasic.sys) (e : string) :
  caught (Player.stats w) = Some e →
  ((Player.fetchMetadata JSON_stringify w σ).1 = inr () ∧
   Player.console (Player.fetchMetadata JSON_stringify w σ).2 =
     Player.console σ ++ [Player.ErrorMetadataFetch e] ∧
   Player.ui (Player.fetchMetadata JSON_stringify w σ).2 =
     Player.with_metadata
       {| RadioMetadata.songtitle := "Erro ao carregar metadados";
          RadioMetadata.artist := Some "SoundPop";
          RadioMetadata.title := RadioMetadata.title (Player.metadata (Player.ui σ));
          RadioMetadata.cover := RadioMetadata.cover (Player.metadata (Player.ui σ));
          RadioMetadata.status := online |}
       (Player.ui σ)) ∧
  ((PlayerBasic.fetchMetadata (Player.stats w) σb).1 = inr () ∧
   PlayerBasic.console (PlayerBasic.fetchMetadata (Player.stats w) σb).2 =
     PlayerBasic.console σb ++ [e] ∧
   PlayerBasic.ui (PlayerBasic.fetchMetadata (Player.stats w) σb).2 =
     PlayerBasic.ui
       (PlayerBasic.setMetadata
          (λ prev, {| RadioMetadata.songtitle := "Sintonizando...";
                      RadioMetadata.artist := Some "Rádio Fox";
                      RadioMetadata.title := RadioMetadata.title prev;
                      RadioMetadata.cover := RadioMetadata.cover prev;
                      RadioMetadata.status := online |})
          σb)).
Proof.
  intros Hcaught. split.
  - by rewrite (PlayerFacts.fetchMetadata_caught JSON_stringify w σ e Hcaught).
  - by rewrite (PlayerBasicFacts.basic_fetchMetadata_caught _ σb e Hcaught).
Qed.

Lemma fetch_failure_degrades_witness :
  (Player.fetchMetadata Player.toy_stringify (Player.unreachable 2)
     Player.after_first).1 = inr () ∧
  RadioMetadata.songtitle
    (Player.metadata
       (Player.ui (Player.fetchMetadata Player.toy_stringify
                     (Player.unreachable 2) Player.after_first).2)) =
    "Erro ao carregar metadados" ∧
  (PlayerBasic.fetchMetadata (StatsFetchRejected "Failed to fetch")
     PlayerBasic.fresh).1 = inr () ∧
  RadioMetadata.songtitle
    (PlayerBasic.metadata
       (PlayerBasic.ui (PlayerBasic.fetchMetadata
                          (StatsFetchRejected "Failed to fetch")
                          PlayerBasic.fresh).2)) =
    "Sintonizando...".
Proof.
  pose proof (fetch_failure_degrades Player.toy_stringify (Player.unreachable 2)
                Player.after_first PlayerBasic.fresh "Failed to fetch" eq_refl)
    as [(H1 & _ & H2) (H3 & _ & H4)].
  split; [exact H1|].
  split; [exact (f_equal (λ s, RadioMetadata.songtitle (Player.metadata s)) H2)|].
  split; [exact H3|].
  exact (f_equal (λ s, RadioMetadata.songtitle (PlayerBasic.metadata s)) H4).
Defined.

End FailureFacts.

(** ** The polling timer *)

Module PollingFacts.
Import Polling.

Local Open Scope N_scope.

Lemma advance_unfold i :
  advance i =
  if N.succ (elapsed i) =? delay i
  then (true, {| handler := handler i; delay := delay i; elapsed := 0 |})
  else (false, {| handler := handler i; delay := delay i;
                  elapsed := N.succ (elapsed i) |}).
Proof. reflexivity. Qed.

Lemma advance_handler i : handler (advance i).2 = handler i.
Proof. unfold advance. by destruct (_ =? _). Qed.

Lemma others_advance others :
  Forall other others → Forall other ((advance <$> others).*2).
Proof.
  induction 1 as [|i others Hi _ IH]; [constructor|].
  rewrite !fmap_cons. constructor; [|done].
  unfold other. by rewrite advance_handler.
Qed.

(** Intervals of other callbacks add no call of [fetchMetadata]. *)
Lemma others_silent t others :
  Forall other others →
  filter (λ c : N * callback, is_fetch c.2 = true)
    ((λ p : bool * interval, (t, handler p.2)) <$>
       filter (λ p : bool * interval, p.1 = true) (advance <$> others)) = [].
Proof.
  induction 1 as [|i others Hi _ IH]; [done|].
  rewrite fmap_cons.
  destruct (decide ((advance i).1 = true)) as [Hfire|Hquiet].
  - rewrite filter_cons_True by done. rewrite fmap_cons.
    rewrite filter_cons_False; [done|].
    cbn. rewrite advance_handler. unfold other in Hi. by rewrite Hi.
  - by rewrite filter_cons_False.
Qed.

Lemma multiples_succ period k :
  multiples period (N.succ k) = multiples period k ++ [period * N.succ k].
Proof.
  unfold multiples. rewrite N2Nat.inj_succ, (seq_S (S _)), fmap_app.
  cbn [fmap list_fmap plus]. by rewrite <- N2Nat.inj_succ, N2Nat.id.
Qed.

(** One ms later: the phase grows by one, or the period is complete and
    [fetchMetadata] is called. *)
Lemma tick_polling k r l :
  polling k r l →
  if N.succ r =? 10000
  then polling (N.succ k) 0 (tick l)
  else polling k (N.succ r) (tick l).
Proof.
  intros [(others & Hint & Hothers) Htimes Hclock Hphase].
  pose proof (others_advance others Hothers) as Hadv.
  pose proof (others_silent (N.succ (clock l)) others Hothers) as Hsilent.
  unfold fetch_times in *. unfold tick.
  rewrite Hint, fmap_cons, advance_unfold. cbn [elapsed delay handler].
  destruct (N.succ r =? 10000) eqn:Hfire.
  - apply N.eqb_eq in Hfire. split; cbn [intervals calls clock].
    + eexists. split; [by rewrite fmap_cons|done].
    + unfold fetch_times. cbn [calls].
      rewrite (filter_cons_True (λ p : bool * interval, p.1 = true)) by done.
      rewrite fmap_cons, filter_app, fmap_app, Htimes.
      rewrite filter_cons_True by done.
      rewrite Hsilent, multiples_succ. cbn [fmap list_fmap fst snd].
      do 2 f_equal. lia.
    + lia.
    + lia.
  - apply N.eqb_neq in Hfire. split; cbn [intervals calls clock].
    + eexists. split; [by rewrite fmap_cons|done].
    + unfold fetch_times. cbn [calls].
      rewrite (filter_cons_False (λ p : bool * interval, p.1 = true))
        by (cbn; discriminate).
      by rewrite filter_app, fmap_app, Htimes, Hsilent, app_nil_r.
    + lia.
    + lia.
Qed.

Lemma mounted_polling isPlaying : polling 0 0 (mounted isPlaying).
Proof.
  split; [|by destruct isPlaying..|done].
  destruct isPlaying; eexists; (split; [reflexivity|]);
    repeat constructor.
Qed.

Lemma run_succ n l : run (N.succ n) l = tick (run n l).
Proof. unfold run. by rewrite N.iter_succ. Qed.

Lemma run_polling isPlaying n :
  ∃ k r, n = 10000 * k + r ∧ polling k r (run n (mounted isPlaying)).
Proof.
  induction n as [|n (k & r & Hn & Hp)] using N.peano_ind.
  - exists 0, 0. split; [done|apply mounted_polling].
  - pose proof (polling_phase _ _ _ Hp).
    apply tick_polling in Hp. rewrite run_succ.
    destruct (N.succ r =? 10000) eqn:Hfire.
    + apply N.eqb_eq in Hfire. exists (N.succ k), 0. split; [lia|done].
    + exists k, (N.succ r). split; [lia|done].
Qed.

(** C8.  A mounted component calls [fetchMetadata] once at mount and then
    every 10000 ms: after [n] ms the calls were made at the times
    0, 10000, 20000, ... up to [n], whether or not the progress interval
    runs beside it; nothing else calls it. *)
Theorem metadata_polled_every_10_seconds (isPlaying : bool) (n : N) :
  fetch_times (run n (mounted isPlaying)) =
  (λ j, 10000 * N.of_nat j) <$> seq 0 (S (N.to_nat (n / 10000))).
Proof.
  destruct (run_polling isPlaying n) as (k & r & Hn & Hp).
  rewrite (polling_times _ _ _ Hp). unfold multiples. do 4 f_equal.
  pose proof (polling_phase _ _ _ Hp).
  apply (N.div_unique n 10000 k r); [done|lia].
Qed.

Example polled_for_25_seconds :
  fetch_times (run 25000 (mounted true)) = [0; 10000; 20000].
Proof. vm_compute. reflexivity. Qed.

Example effect_of_the_source :
  metadata_effect = [Call FetchMetadata; SetInterval FetchMetadata 10000].
Proof. reflexivity. Qed.

End PollingFacts.

(** ** More on [split] *)

Module SplitFacts.
Import JS StringFacts.

Lemma prefix_char k c x :
  String.prefix (String k EmptyString) (String c x) =
  if Ascii.ascii_dec k c then true else false.
Proof. cbn. destruct (Ascii.ascii_dec k c); [by destruct x|done]. Qed.

Lemma index_comma_app a rest :
  indexOf "," a = None →
  indexOf "," (a +:+ "," +:+ rest) = Some (String.length a).
Proof.
  unfold indexOf. induction a as [|c a IH]; intros Ha.
  - by destruct rest.
  - cbn [String.index] in Ha. rewrite (append_cons c a). cbn [String.index].
    rewrite prefix_char in Ha |- *.
    destruct (Ascii.ascii_dec _ c); [done|].
    destruct (String.index 0 "," a); [done|].
    by rewrite IH.
Qed.

(** Without an occurrence of the separator there is one piece. *)
Lemma split_no_index sep s :
  sep ≠ EmptyString → indexOf sep s = None → split sep s = [s].
Proof.
  intros Hsep. unfold indexOf, split.
  induction s as [|c s IH]; intros Hs; [done|].
  cbn [String.index] in Hs. cbn [split_from].
  destruct (String.prefix sep (String c s)); [done|].
  destruct (String.index 0 sep s); [done|].
  by rewrite IH.
Qed.

Lemma drop_str_app a b : drop_str (String.length a) (a +:+ b) = b.
Proof. induction a as [|c a IH]; [done|]. by rewrite append_cons. Qed.

Lemma take_str_app a b : take_str (String.length a) (a +:+ b) = a.
Proof.
  unfold take_str. induction a as [|c a IH]; [by destruct b|].
  rewrite append_cons. cbn. by rewrite IH.
Qed.

Lemma append_assoc a b c : (a +:+ b) +:+ c = a +:+ b +:+ c.
Proof. induction a as [|x a IH]; [done|]. by rewrite !append_cons, IH. Qed.

Lemma length_append a b :
  String.length (a +:+ b) = String.length a + String.length b.
Proof. induction a as [|x a IH]; [done|]. rewrite append_cons. cbn. lia. Qed.

(** Splitting a line of comma-free fields followed by any text. *)
Lemma split_fields fields text :
  Forall (λ f, indexOf "," f = None) fields →
  split "," (join "," (fields ++ [text])) = fields ++ split "," text.
Proof.
  assert ("," ≠ EmptyString) as Hsep by done.
  induction 1 as [|f fields Hf _ IH]; [done|].
  cbn [app]. rewrite join_cons by (by destruct fields).
  rewrite (split_at_index "," Hsep _ _ (index_comma_app f _ Hf)).
  rewrite take_str_app. f_equal. rewrite <- IH. f_equal.
  rewrite <- length_append, <- append_assoc. apply drop_str_app.
Qed.

(** The first piece of a split: the text up to the first separator. *)
Lemma split_head sep s :
  sep ≠ EmptyString →
  head (split sep s) =
  Some (match indexOf sep s with Some i => take_str i s | None => s end).
Proof.
  intros Hsep. destruct (indexOf sep s) as [i|] eqn:Hi.
  - by rewrite (split_at_index sep Hsep s i Hi).
  - by rewrite (split_no_index sep s Hsep Hi).
Qed.

End SplitFacts.

(** ** The proxy: error details, the legacy line, the TLS agent *)

Module ServerErrorsFacts.
Import JS Server ServerErrors StringFacts SplitFacts.

Section Handler.

Variable JSON_parse : string → string + Json.
Variable invalid_json_message : string → string → string.
Variable upstream : request → fetched.

Local Abbreviation attempt := (Server.attempt JSON_parse invalid_json_message upstream).
Local Abbreviation try_endpoints :=
  (Server.try_endpoints JSON_parse invalid_json_message upstream).
Local Abbreviation try_legacy := (Server.try_legacy upstream).
Local Abbreviation radio_stats :=
  (Server.radio_stats JSON_parse invalid_json_message upstream).
Local Abbreviation parsed := (Server.parsed JSON_parse upstream).
Local Abbreviation legacy_title := (Server.legacy_title upstream).
Local Abbreviation all_failed := (Server.all_failed JSON_parse upstream).
Local Abbreviation raised := (ServerErrors.raised JSON_parse invalid_json_message upstream).
Local Abbreviation last_raised :=
  (ServerErrors.last_raised JSON_parse invalid_json_message upstream).

Lemma attempt_lastError u c :
  lastError (attempt u c).2 =
  match raised u with Some e => Some e | None => lastError c end.
Proof.
  unfold Server.attempt, ServerErrors.raised, response_json.
  destruct (upstream (json_request u)) as [e|r]; [done|].
  destruct (ok r); [|done].
  destruct (match content_type r with Some ct => _ | None => _ end);
    destruct (body r) as [e|text]; try done;
    by destruct (JSON_parse text).
Qed.

Lemma try_legacy_lastError c : lastError (try_legacy c).2 = lastError c.
Proof.
  unfold Server.try_legacy.
  destruct (upstream legacy_request) as [e|r]; [done|].
  destruct (ok r); [|done].
  destruct (body r) as [e|text]; [done|].
  by destruct (7 <=? length (split "," text)).
Qed.

Lemma radio_stats_lastError :
  all_failed = true → lastError radio_stats.2 = last_raised.
Proof.
  unfold Server.all_failed, Server.radio_stats, endpoints.
  rewrite !(ServerFacts.try_endpoints_cons JSON_parse invalid_json_message upstream).
  destruct (parsed endpoint_A); [done|].
  destruct (parsed endpoint_B); [done|].
  destruct (parsed endpoint_C); [done|].
  cbn [Server.try_endpoints].
  set (c := (attempt endpoint_C _).2).
  pose proof (try_legacy_lastError c) as Hl.
  pose proof (ServerFacts.try_legacy_reply upstream c) as Hr.
  destruct legacy_title; [done|]. intros _.
  destruct (try_legacy c) as [[r|] c']; [done|]. cbn [fst snd] in *.
  rewrite Hl. subst c. rewrite !attempt_lastError.
  unfold ServerErrors.last_raised.
  by destruct (raised endpoint_C), (raised endpoint_B), (raised endpoint_A).
Qed.

(** X1.  When every endpoint failed, [details] is the message of the last
    exception raised over the three JSON endpoints, or the text ["null"]
    when none of them raised; what happened to the legacy request never
    shows in it. *)
Theorem details_report_last_exception :
  all_failed = true →
  radio_stats.1 =
  Reply 500 (error_object (match last_raised with Some e => e | None => "null" end)).
Proof.
  intros Hall. pose proof (radio_stats_lastError Hall) as Hlast.
  pose proof (ServerFacts.radio_stats_cases JSON_parse invalid_json_message
                upstream) as H.
  unfold Server.all_failed in Hall.
  destruct (parsed endpoint_A); [done|].
  destruct (parsed endpoint_B); [done|].
  destruct (parsed endpoint_C); [done|].
  destruct H as [_ H]. destruct legacy_title; [done|].
  rewrite H. unfold failure, details_of. by rewrite Hlast.
Qed.

(** X3.  Every request of a run to an [https] URL goes through the agent that
    does not verify certificates, and the request to the [http] URL goes
    without agent. *)
Theorem https_requests_skip_certificate_checks :
  Forall (λ q, req_agent q =
               if String.prefix "https" (url q)
               then Some {| rejectUnauthorized := false |}
               else None)
         (sent radio_stats.2).
Proof.
  pose proof (ServerFacts.radio_stats_cases JSON_parse invalid_json_message
                upstream) as H.
  destruct (parsed endpoint_A), (parsed endpoint_B), (parsed endpoint_C);
    destruct H as [-> _]; unfold sequence; cbn [take];
    repeat (apply Forall_cons_2; [reflexivity|]); apply Forall_nil_2.
Qed.

End Handler.

(** X2.  On the legacy path a title is cut at its first comma: for a status
    line of six comma-free fields followed by the title, the [songtitle]
    sent back is the title up to its first comma (the whole title only
    when it has none). *)
Theorem legacy_title_cut_at_comma JSON_parse invalid_json_message upstream
    (r : response) (fields : list string) (title : string) :
  Server.parsed JSON_parse upstream endpoint_A = None →
  Server.parsed JSON_parse upstream endpoint_B = None →
  Server.parsed JSON_parse upstream endpoint_C = None →
  upstream legacy_request = Answered r →
  ok r = true →
  body r = inr (join "," (fields ++ [title])) →
  length fields = 6 →
  Forall (λ f, indexOf "," f = None) fields →
  (Server.radio_stats JSON_parse invalid_json_message upstream).1 =
  Reply 200 (songtitle_object
               (match indexOf "," title with
                | Some i => take_str i title
                | None => title
                end)).
Proof.
  intros HA HB HC Hup Hok Hbody Hlen Hfields.
  pose proof (ServerFacts.radio_stats_cases JSON_parse invalid_json_message
                upstream) as H.
  rewrite HA, HB, HC in H. destruct H as [_ H].
  assert ("," ≠ EmptyString) as Hsep by done.
  pose proof (split_head "," title Hsep) as Hhead.
  destruct (split "," title) as [|piece pieces] eqn:Hsplit; [done|].
  injection Hhead as Hpiece.
  unfold Server.legacy_title in H.
  rewrite Hup, Hok, Hbody, (split_fields fields title Hfields), Hsplit in H.
  rewrite length_app, Hlen in H. cbn [length Nat.add Nat.leb] in H.
  rewrite lookup_app_r, Hlen in H by lia. cbn in H.
  by rewrite H, Hpiece.
Qed.

Lemma details_report_last_exception_witness :
  (radio_stats toy_parse toy_message all_unavailable).1 =
  Reply 500 (error_object "null").
Proof.
  exact (details_report_last_exception toy_parse toy_message all_unavailable
           eq_refl).
Defined.

Lemma legacy_title_cut_at_comma_witness :
  (radio_stats toy_parse toy_message legacy_with_comma).1 =
  Reply 200 (songtitle_object "Artist - Hello").
Proof.
  apply (legacy_title_cut_at_comma toy_parse toy_message legacy_with_comma
           {| ok := true; status := 200; content_type := Some "text/html";
              body := inr comma_line |}
           ["12"; "1"; "40"; "99"; "9"; "128"] "Artist - Hello, World");
    try reflexivity.
  repeat (apply Forall_cons_2; [reflexivity|]). apply Forall_nil_2.
Defined.

End ServerErrorsFacts.

(** ** The earlier proxies *)

Module ServerEarlierFacts.
Import JS Server ServerEarlier.

Section Handler.

Variable JSON_parse : string → string + Json.
Variable invalid_json_message : string → string → string.
Variable earlier : plain_request → fetched.
Variable upstream : request → fetched.

Lemma fetch_stats_parsed q data :
  earlier q = upstream (json_request endpoint_A) →
  fetch_stats JSON_parse invalid_json_message earlier q = inr data →
  parsed JSON_parse upstream endpoint_A = Some data.
Proof.
  unfold fetch_stats, parsed, response_json. intros ->.
  destruct (upstream (json_request endpoint_A)) as [e|r]; [done|].
  destruct (ok r); [|done].
  destruct (body r) as [e|text]; [done|].
  destruct (JSON_parse text); [done|]. by intros [= ->].
Qed.

(** X4.  The proxy with fallbacks keeps every success of the two earlier
    proxies: when the streaming server answers the first request of the
    fallback sequence as it answered theirs, a 200 reply of an earlier proxy
    is the reply of the present one, after that single request. *)
Theorem fallbacks_keep_earlier_successes (data : Json) :
  earlier bare_request = upstream (json_request endpoint_A) →
  earlier browser_request = upstream (json_request endpoint_A) →
  (radio_stats_bare JSON_parse invalid_json_message earlier).1 = Reply 200 data ∨
  (radio_stats_browser JSON_parse invalid_json_message earlier).1 = Reply 200 data →
  (radio_stats JSON_parse invalid_json_message upstream).1 = Reply 200 data ∧
  sent (radio_stats JSON_parse invalid_json_message upstream).2 =
    [json_request endpoint_A].
Proof.
  intros Hbare Hbrowser Hearlier.
  assert (parsed JSON_parse upstream endpoint_A = Some data) as Hparsed.
  { destruct Hearlier as [H|H].
    - unfold radio_stats_bare in H.
      destruct (fetch_stats _ _ _ bare_request) as [e|d] eqn:Hf; [done|].
      injection H as ->. by apply (fetch_stats_parsed bare_request).
    - unfold radio_stats_browser in H.
      destruct (fetch_stats _ _ _ browser_request) as [e|d] eqn:Hf; [done|].
      injection H as ->. by apply (fetch_stats_parsed browser_request). }
  pose proof (ServerFacts.radio_stats_cases JSON_parse invalid_json_message
                upstream) as H.
  rewrite Hparsed in H. by destruct H as [-> ->].
Qed.

End Handler.

Lemma fallbacks_keep_earlier_successes_witness :
  (radio_stats toy_parse toy_message (λ _, page_for_all)).1 =
    Reply 200 (JObj []) ∧
  sent (radio_stats toy_parse toy_message (λ _, page_for_all)).2 =
    [json_request endpoint_A].
Proof.
  apply (fallbacks_keep_earlier_successes toy_parse toy_message
           (λ _, page_for_all) (λ _, page_for_all) (JObj []));
    [reflexivity|reflexivity|left; reflexivity].
Defined.

End ServerEarlierFacts.

(** ** More on the derivation of (artist, title) *)

Module DeriveFacts.
Import JS Metadata StringFacts.

Lemma or_str_nonempty a b : b ≠ EmptyString → or_str a b ≠ EmptyString.
Proof. by destruct a. Qed.

(** X5.  A songtitle without [" - "] is shown twice: it is both the artist and
    the title. *)
Theorem derive_without_separator (fallback songtitle : string) :
  indexOf separator songtitle = None →
  songtitle ≠ EmptyString →
  derive fallback songtitle = (songtitle, songtitle).
Proof.
  intros Hnone Hs. unfold derive.
  rewrite (SplitFacts.split_no_index separator songtitle
             MetadataFacts.separator_nonempty Hnone).
  cbn [join]. by destruct songtitle.
Qed.

Lemma derive_without_separator_witness :
  derive "SoundPop" "Jingle" = ("Jingle", "Jingle").
Proof.
  apply (derive_without_separator "SoundPop" "Jingle"); [reflexivity|discriminate].
Defined.

(** X6.  Neither the artist nor the title derived from a non-empty songtitle is
    ever empty (the fallback name being non-empty). *)
Theorem derive_never_empty (fallback songtitle : string) :
  fallback ≠ EmptyString →
  songtitle ≠ EmptyString →
  (derive fallback songtitle).1 ≠ EmptyString ∧
  (derive fallback songtitle).2 ≠ EmptyString.
Proof.
  intros Hf Hs. unfold derive.
  destruct (split separator songtitle) as [|artistName songParts]; [done|].
  split; by apply or_str_nonempty.
Qed.

Lemma derive_never_empty_witness :
  (derive "SoundPop" " - ").1 ≠ EmptyString ∧
  (derive "SoundPop" " - ").2 ≠ EmptyString.
Proof.
  apply (derive_never_empty "SoundPop" " - "); discriminate.
Defined.

(** The title does not depend on the fallback name, and neither does the
    artist when there is text before the first separator. *)
Lemma derive_fallback fallback1 fallback2 songtitle :
  (derive fallback1 songtitle).2 = (derive fallback2 songtitle).2 ∧
  (head (split separator songtitle) ≠ Some EmptyString →
   (derive fallback1 songtitle).1 = (derive fallback2 songtitle).1).
Proof.
  unfold derive.
  destruct (split separator songtitle) as [|artistName songParts] eqn:Hsplit.
  - pose proof (split_from_cons separator 0 songtitle) as (? & ? & H).
    unfold split in Hsplit. congruence.
  - split; [done|]. cbn. intros Ha. destruct artistName; [done|done].
Qed.

End DeriveFacts.

(** ** More on [fetchMetadata] *)

Module PlayerMoreFacts.
Import JS Metadata Player PlayerInputs.

Section FetchMetadata.

Variable JSON_stringify : list HistoryItem.t → string.

Local Abbreviation fetchMetadata := (Player.fetchMetadata JSON_stringify).

(** A titled run, from what the cover lookup returned. *)
Lemma fetchMetadata_with_cover w σ data songtitle artist songTitle coverUrl lines :
  stats w = StatsData data →
  has_songtitle data = true →
  songtitle_of data = Some (JStr songtitle) →
  derive "SoundPop" songtitle = (artist, songTitle) →
  fetch_cover w artist songTitle σ = (inr coverUrl, log_to σ lines) →
  fetchMetadata w σ =
  (inr (),
   if is_head songTitle artist (history (ui σ))
   then {| ui := refreshed songTitle artist coverUrl (ui σ);
           localStorage := localStorage σ;
           console := console σ ++ lines |}
   else
     let h := take 10 (new_item w songTitle artist coverUrl :: history (ui σ)) in
     {| ui := with_history h (refreshed songTitle artist coverUrl (ui σ));
        localStorage := <["radio_history" := JSON_stringify h]> (localStorage σ);
        console := console σ ++ lines |}).
Proof.
  intros Hstats Hhas Hsong Hderive Hc.
  unfold Player.fetchMetadata, try_catch, Player.fetchMetadata_try, await_stats.
  rewrite Hstats, PlayerFacts.run_bind, PlayerFacts.run_ret, Hhas, Hsong,
    Hderive, PlayerFacts.run_bind, Hc.
  unfold setMetadata, setLyrics, setShowLyrics, setHistory,
    Player.update_history, get_ui, put_ui, localStorage_setItem,
    mbind, M_bind, mret, M_ret.
  cbn -[take]. unfold is_head.
  destruct (history (ui σ)) as [|lastItem rest] eqn:Hh; cbn -[take]; [done|].
  destruct (_ && _); cbn -[take]; [|done].
  by rewrite PlayerFacts.with_history_id.
Qed.

(** The answers of [fetchMetadata], by kind. *)
Lemma stats_cases (o : stats_outcome) :
  (∃ e, caught o = Some e) ∨
  (∃ data, o = StatsData data ∧ has_songtitle data = false) ∨
  (∃ data songtitle,
     o = StatsData data ∧ has_songtitle data = true ∧
     songtitle_of data = Some (JStr songtitle)).
Proof.
  destruct o as [e|e|data]; [left; by eexists..|].
  unfold caught. destruct (has_songtitle data) eqn:Hhas; [|right; left; eauto].
  destruct (songtitle_of data) as [[| | |s| |]|] eqn:Hsong;
    try (left; by eexists).
  right; right. eauto.
Qed.

(** The cells and the keys a run does not touch. *)
Lemma fetchMetadata_cells (w : world) (σ : sys) :
  isPlaying (ui (fetchMetadata w σ).2) = isPlaying (ui σ) ∧
  volume (ui (fetchMetadata w σ).2) = volume (ui σ) ∧
  isMuted (ui (fetchMetadata w σ).2) = isMuted (ui σ) ∧
  isLiked (ui (fetchMetadata w σ).2) = isLiked (ui σ) ∧
  isLoading (ui (fetchMetadata w σ).2) = isLoading (ui σ) ∧
  progress (ui (fetchMetadata w σ).2) = progress (ui σ) ∧
  aiInsight (ui (fetchMetadata w σ).2) = aiInsight (ui σ) ∧
  isAiLoading (ui (fetchMetadata w σ).2) = isAiLoading (ui σ) ∧
  showHistory (ui (fetchMetadata w σ).2) = showHistory (ui σ) ∧
  isLyricsLoading (ui (fetchMetadata w σ).2) = isLyricsLoading (ui σ) ∧
  ∀ key, key ≠ "radio_history" →
         localStorage (fetchMetadata w σ).2 !! key = localStorage σ !! key.
Proof.
  destruct (stats_cases (stats w))
    as [[e He]|[(data & Hs & Hhas)|(data & s & Hs & Hhas & Hsong)]].
  - by rewrite (PlayerFacts.fetchMetadata_caught JSON_stringify w σ e He).
  - by rewrite (PlayerFacts.fetchMetadata_no_title JSON_stringify w σ data Hs Hhas).
  - destruct (derive "SoundPop" s) as [artist songTitle] eqn:Hderive.
    destruct (PlayerFacts.fetchMetadata_track JSON_stringify w σ data s artist
                songTitle Hs Hhas Hsong Hderive) as (coverUrl & lines & ->).
    destruct (is_head songTitle artist (history (ui σ))); cbn -[take];
      repeat (split; [done|]); intros key Hkey; [done|].
    by rewrite lookup_insert_ne.
Qed.

(** X7.  Whatever the answers, a run of [fetchMetadata] leaves the playback,
    volume, like, loading, progress, insight and history-panel cells as they
    are, and every [localStorage] key other than ["radio_history"]. *)
Theorem fetchMetadata_frame (w : world) (σ : sys) :
  isPlaying (ui (fetchMetadata w σ).2) = isPlaying (ui σ) ∧
  volume (ui (fetchMetadata w σ).2) = volume (ui σ) ∧
  isMuted (ui (fetchMetadata w σ).2) = isMuted (ui σ) ∧
  isLiked (ui (fetchMetadata w σ).2) = isLiked (ui σ) ∧
  isLoading (ui (fetchMetadata w σ).2) = isLoading (ui σ) ∧
  progress (ui (fetchMetadata w σ).2) = progress (ui σ) ∧
  aiInsight (ui (fetchMetadata w σ).2) = aiInsight (ui σ) ∧
  isAiLoading (ui (fetchMetadata w σ).2) = isAiLoading (ui σ) ∧
  showHistory (ui (fetchMetadata w σ).2) = showHistory (ui σ) ∧
  isLyricsLoading (ui (fetchMetadata w σ).2) = isLyricsLoading (ui σ) ∧
  ∀ key, key ≠ "radio_history" →
         localStorage (fetchMetadata w σ).2 !! key = localStorage σ !! key.
Proof.
  destruct (stats_cases (stats w))
    as [[e He]|[(data & Hs & Hhas)|(data & s & Hs & Hhas & Hsong)]].
  - by rewrite (PlayerFacts.fetchMetadata_caught JSON_stringify w σ e He).
  - by rewrite (PlayerFacts.fetchMetadata_no_title JSON_stringify w σ data Hs Hhas).
  - destruct (derive "SoundPop" s) as [artist songTitle] eqn:Hderive.
    destruct (PlayerFacts.fetchMetadata_track JSON_stringify w σ data s artist
                songTitle Hs Hhas Hsong Hderive) as (coverUrl & lines & ->).
    destruct (is_head songTitle artist (history (ui σ))); cbn -[take];
      repeat (split; [done|]); intros key Hkey; [done|].
    by rewrite lookup_insert_ne.
Qed.

(** A run leaves the lyrics panel as it is or closes it. *)
Lemma fetchMetadata_panel (w : world) (σ : sys) :
  showLyrics (ui (fetchMetadata w σ).2) = false ∨
  showLyrics (ui (fetchMetadata w σ).2) = showLyrics (ui σ).
Proof.
  destruct (stats_cases (stats w))
    as [[e He]|[(data & Hs & Hhas)|(data & s & Hs & Hhas & Hsong)]].
  - rewrite (PlayerFacts.fetchMetadata_caught JSON_stringify w σ e He). by right.
  - rewrite (PlayerFacts.fetchMetadata_no_title JSON_stringify w σ data Hs Hhas).
    by right.
  - destruct (derive "SoundPop" s) as [artist songTitle] eqn:Hderive.
    destruct (PlayerFacts.fetchMetadata_track JSON_stringify w σ data s artist
                songTitle Hs Hhas Hsong Hderive) as (coverUrl & lines & ->).
    left. by destruct (is_head songTitle artist (history (ui σ))).
Qed.

(** X8.  Every run that finds a songtitle discards the lyrics and closes their
    panel, also when the track is the one already at the head of the
    history. *)
Theorem titled_poll_resets_lyrics (w : world) (σ : sys) (data : Json)
    (songtitle : string) :
  stats w = StatsData data →
  has_songtitle data = true →
  songtitle_of data = Some (JStr songtitle) →
  lyrics (ui (fetchMetadata w σ).2) = None ∧
  showLyrics (ui (fetchMetadata w σ).2) = false.
Proof.
  intros Hs Hhas Hsong.
  destruct (derive "SoundPop" songtitle) as [artist songTitle] eqn:Hderive.
  destruct (PlayerFacts.fetchMetadata_track JSON_stringify w σ data songtitle
              artist songTitle Hs Hhas Hsong Hderive) as (coverUrl & lines & ->).
  by destruct (is_head songTitle artist (history (ui σ))).
Qed.

(** X9.  When the iTunes lookup fails, the run still puts the track on display,
    without cover: Deezer is not asked (it is the fallback for an empty
    iTunes answer only), and the failure goes to the console. *)
Theorem itunes_failure_drops_cover (w : world) (σ : sys) (data : Json)
    (songtitle artist songTitle e : string) :
  stats w = StatsData data →
  has_songtitle data = true →
  songtitle_of data = Some (JStr songtitle) →
  derive "SoundPop" songtitle = (artist, songTitle) →
  itunes w (artist +:+ " " +:+ songTitle) = ItunesFailed e →
  (fetchMetadata w σ).1 = inr () ∧
  metadata (ui (fetchMetadata w σ).2) = shown songTitle artist None ∧
  console (fetchMetadata w σ).2 = console σ ++ [ErrorFetchingCover e].
Proof.
  intros Hs Hhas Hsong Hderive Hitunes.
  assert (fetch_cover w artist songTitle σ =
          (inr None, log_to σ [ErrorFetchingCover e])) as Hc.
  { unfold fetch_cover, lookup_cover, try_catch. by rewrite Hitunes. }
  rewrite (fetchMetadata_with_cover w σ data songtitle artist songTitle None
             [ErrorFetchingCover e] Hs Hhas Hsong Hderive Hc).
  by destruct (is_head songTitle artist (history (ui σ))).
Qed.

End FetchMetadata.

Lemma titled_poll_resets_lyrics_witness :
  history (ui (Player.fetchMetadata toy_stringify (playing "A - 1" 2)
                 reading_lyrics).2) = history (ui reading_lyrics) ∧
  lyrics (ui reading_lyrics) = Some "la la la" ∧
  lyrics (ui (Player.fetchMetadata toy_stringify (playing "A - 1" 2)
                reading_lyrics).2) = None ∧
  showLyrics (ui (Player.fetchMetadata toy_stringify (playing "A - 1" 2)
                    reading_lyrics).2) = false.
Proof.
  split; [reflexivity|]. split; [reflexivity|].
  apply (titled_poll_resets_lyrics toy_stringify (playing "A - 1" 2)
           reading_lyrics (JObj [("songtitle", JStr "A - 1")]) "A - 1");
    reflexivity.
Defined.

Lemma itunes_failure_drops_cover_witness :
  (Player.fetchMetadata toy_stringify (itunes_down "A - 2" 2) after_first).1 =
    inr () ∧
  metadata (ui (Player.fetchMetadata toy_stringify (itunes_down "A - 2" 2)
                  after_first).2) = shown "2" "A" None ∧
  console (Player.fetchMetadata toy_stringify (itunes_down "A - 2" 2)
             after_first).2 =
    console after_first ++ [ErrorFetchingCover "Failed to fetch"].
Proof.
  apply (itunes_failure_drops_cover toy_stringify (itunes_down "A - 2" 2)
           after_first (JObj [("songtitle", JStr "A - 2")]) "A - 2" "A" "2"
           "Failed to fetch"); reflexivity.
Defined.

(** X10.  For an answer of the proxy that is read as JSON and carries a
    songtitle which is a non-empty string, both players show the same title,
    and the same artist whenever there is text before the first separator.
    (The condition is needed: in the [catch] the later player shows
    ["Erro ao carregar metadados"], the earlier one ["Sintonizando..."].) *)
Theorem players_show_same_track (JSON_stringify : list HistoryItem.t → string)
    (w : world) (σ : sys) (σb : PlayerBasic.sys) (data : Json)
    (songtitle : string) :
  stats w = StatsData data →
  has_songtitle data = true →
  songtitle_of data = Some (JStr songtitle) →
  RadioMetadata.songtitle
    (metadata (ui (Player.fetchMetadata JSON_stringify w σ).2)) =
  RadioMetadata.songtitle
    (PlayerBasic.metadata
       (PlayerBasic.ui (PlayerBasic.fetchMetadata (stats w) σb).2)) ∧
  (head (split separator songtitle) ≠ Some EmptyString →
   RadioMetadata.artist
     (metadata (ui (Player.fetchMetadata JSON_stringify w σ).2)) =
   RadioMetadata.artist
     (PlayerBasic.metadata
        (PlayerBasic.ui (PlayerBasic.fetchMetadata (stats w) σb).2))).
Proof.
  intros Hs Hhas Hsong.
  destruct (DeriveFacts.derive_fallback "SoundPop" "Rádio Fox" songtitle)
    as [Htitle Hartist].
  destruct (derive "SoundPop" songtitle) as [artist songTitle] eqn:Hderive.
  destruct (PlayerFacts.fetchMetadata_track JSON_stringify w σ data songtitle
              artist songTitle Hs Hhas Hsong Hderive) as (coverUrl & lines & ->).
  unfold PlayerBasic.fetchMetadata, PlayerBasic.fetchMetadata_try.
  rewrite Hs, Hhas, Hsong.
  destruct (derive "Rádio Fox" songtitle) as [artistb songTitleb].
  cbn in Htitle, Hartist.
  destruct (is_head songTitle artist (history (ui σ))); cbn;
    (split; [done|]); intros Hhead; by rewrite Hartist.
Qed.

Lemma players_show_same_track_witness :
  RadioMetadata.songtitle
    (metadata (ui (Player.fetchMetadata toy_stringify (playing "A - 1" 1)
                     fresh).2)) =
  RadioMetadata.songtitle
    (PlayerBasic.metadata
       (PlayerBasic.ui (PlayerBasic.fetchMetadata
                          (stats (playing "A - 1" 1)) PlayerBasic.fresh).2)).
Proof.
  exact (proj1 (players_show_same_track toy_stringify (playing "A - 1" 1) fresh
                  PlayerBasic.fresh (JObj [("songtitle", JStr "A - 1")]) "A - 1"
                  eq_refl eq_refl eq_refl)).
Defined.

End PlayerMoreFacts.

(** ** The serverless handler *)

Module VercelFacts.
Import JS Vercel StringFacts SplitFacts.

Lemma includes_index sep s :
  includes sep s = match indexOf sep s with Some _ => true | None => false end.
Proof. reflexivity. Qed.

(** With a separator in it, a song has at least two pieces: the text before
    the first separator, and the text after it up to the next one. *)
Lemma pieces_of_separated song i :
  indexOf " - " song = Some i →
  ∃ more,
    pieces_of song =
    take_str i song ::
    match indexOf " - " (drop_str (i + 3) song) with
    | Some j => take_str j (drop_str (i + 3) song)
    | None => drop_str (i + 3) song
    end :: more.
Proof.
  intros Hi. assert (" - " ≠ EmptyString) as Hsep by done.
  unfold pieces_of. rewrite includes_index, Hi.
  rewrite (split_at_index " - " Hsep song i Hi).
  change (String.length " - ") with 3.
  pose proof (split_head " - " (drop_str (i + 3) song) Hsep) as Hhead.
  destruct (split " - " (drop_str (i + 3) song)) as [|p more]; [done|].
  injection Hhead as ->. by exists more.
Qed.

Lemma pieces_of_two song : ∃ artist title more, pieces_of song = artist :: title :: more.
Proof.
  destruct (indexOf " - " song) as [i|] eqn:Hi.
  - destruct (pieces_of_separated song i Hi) as (more & ->). by eexists _, _, _.
  - unfold pieces_of. rewrite includes_index, Hi. by eexists _, _, _.
Qed.

Section Handler.

Variable trim : string → string.

Local Abbreviation handler := (Vercel.handler trim).
Local Abbreviation found := (Vercel.found trim).


(** X12.  The handler answers 500 exactly when the status request or its
    [json()] fails, the title is a truthy value that is not a string, or
    the cover lookup fails; otherwise it answers 200.  A failed cover
    lookup thus fails the request although artist and title are known. *)
Theorem handler_fails_iff (up : upstream) :
  Server.reply_code (handler up) =
  match icecast up with
  | StatusData data =>
      match song_of data with
      | JStr song =>
          match itunes_search up song with
          | CoverFailed _ => 500
          | _ => 200
          end
      | _ => 500
      end
  | _ => 500
  end.
Proof.
  unfold Vercel.handler.
  destruct (icecast up) as [e|e|data]; [done..|].
  destruct (song_of data) as [| | |song| |]; try done.
  destruct (pieces_of_two song) as (artist & title & more & ->).
  by destruct (itunes_search up song) as [e|[art|]|].
Qed.

(** X13.  When Icecast lists several sources ([source] is an array), their titles
    are not looked at: the handler searches the cover of ["Desconhecido"],
    and replies 500 when that lookup fails, and otherwise 200 with an empty
    artist, the title ["Desconhecido"] and the cover the lookup gave. *)
Theorem several_sources_unknown (up : upstream) (data : Json)
    (sources : list Json) :
  icecast up = StatusData data →
  source_of data = Some (JArr sources) →
  handler up =
  match cover_value (itunes_search up "Desconhecido") with
  | Some cover => found EmptyString "Desconhecido" cover
  | None => failure
  end.
Proof.
  intros Hup Hsource. unfold Vercel.handler, song_of.
  rewrite Hup, Hsource. cbn [chain].
  by destruct (cover_value (itunes_search up "Desconhecido")).
Qed.

End Handler.


Lemma several_sources_unknown_witness :
  Vercel.handler trim_spaces two_sources =
  Server.Reply 200 (JObj [("artist", JStr ""); ("title", JStr "Desconhecido");
                          ("cover", JNull)]).
Proof.
  exact (several_sources_unknown trim_spaces two_sources
           (icestats (JArr [JObj [("title", JStr "A - B")];
                            JObj [("title", JStr "C - D")]]))
           [JObj [("title", JStr "A - B")]; JObj [("title", JStr "C - D")]]
           eq_refl eq_refl).
Defined.

Example cover_down_fails :
  Vercel.handler trim_spaces cover_down = Vercel.failure.
Proof. reflexivity. Qed.

End VercelFacts.

(** ** The controls of the player *)

Module ControlsFacts.
Import JS Metadata Player Controls.

Section Page.

Variable JSON_stringify : list HistoryItem.t → string.
Variable JSON_parse : string → string + list HistoryItem.t.

Local Abbreviation restore := (Controls.restore JSON_parse).
Local Abbreviation mount := (Controls.mount JSON_parse).
Local Abbreviation step := (Controls.step JSON_stringify JSON_parse).
Local Abbreviation run := (Controls.run JSON_stringify JSON_parse).
Local Abbreviation fetchMetadata := (Player.fetchMetadata JSON_stringify).
Local Abbreviation reads_back_short :=
  (Controls.reads_back_short JSON_stringify JSON_parse).

(** Names every cell of the page. *)
Ltac open_page p :=
  let s := fresh "s" in
  destruct p as [[s ? ?] audioRef0 ? ?];
  destruct s as [isPlaying0 volume0 isMuted0 isLiked0 metadata0 isLoading0
                   progress0 aiInsight0 isAiLoading0 history0 showHistory0
                   lyrics0 showLyrics0 isLyricsLoading0];
  cbn in *.

(** A property kept by every event holds after any sequence of events. *)
Lemma run_invariant (P : page → Prop) :
  (∀ p e, P p → P (step p e)) →
  ∀ events p, P p → P (run events p).
Proof.
  intros Hstep events. unfold Controls.run.
  induction events as [|e events IH]; intros p Hp; [done|].
  cbn [foldl]. apply IH. by apply Hstep.
Qed.

(** The same, for events that satisfy a condition of their own. *)
Lemma run_invariant_on (Q : event → Prop) (P : page → Prop) :
  (∀ p e, Q e → P p → P (step p e)) →
  ∀ events p, Forall Q events → P p → P (run events p).
Proof.
  intros Hstep events. unfold Controls.run.
  induction events as [|e events IH]; intros p Hall Hp; [done|].
  apply Forall_cons in Hall as [He Hall].
  cbn [foldl]. apply IH; [done|by apply Hstep].
Qed.

(** What [restore] does to the cells. *)
Lemma restore_panels p :
  showHistory (ui (core (restore p))) = showHistory (ui (core p)) ∧
  showLyrics (ui (core (restore p))) = showLyrics (ui (core p)) ∧
  isPlaying (ui (core (restore p))) = isPlaying (ui (core p)) ∧
  volume (ui (core (restore p))) = volume (ui (core p)) ∧
  isMuted (ui (core (restore p))) = isMuted (ui (core p)) ∧
  audioRef (restore p) = audioRef p ∧
  outbox (restore p) = outbox p ∧
  localStorage (core (restore p)) = localStorage (core p).
Proof.
  unfold Controls.restore.
  destruct (localStorage (core p) !! "radio_liked") as [savedLike|];
    [destruct (String.eqb savedLike "true")|];
    cbn; destruct (localStorage (core p) !! "radio_history") as [saved|];
    try done; destruct (truthy_str saved); try done;
    by destruct (JSON_parse saved).
Qed.

Lemma mount_rendered storage : mount storage = restore (rendered storage).
Proof. reflexivity. Qed.

(** *** The two panels *)

Lemma panels_apart_step p e :
  sees_panels p e →
  panels_apart p → panels_apart (step p e).
Proof.
  unfold panels_apart. intros Hsees Hp.
  destruct e as [w| | | | | |seen|seen|o| |o| | |v|]; cbn [Controls.step].
  - cbn [core ui].
    destruct (PlayerMoreFacts.fetchMetadata_cells JSON_stringify w (core p))
      as (_ & _ & _ & _ & _ & _ & _ & _ & -> & _).
    destruct (PlayerMoreFacts.fetchMetadata_panel JSON_stringify w (core p))
      as [-> | ->]; [by rewrite andb_false_r|done].
  - open_page p. destruct audioRef0; [|done]. by destruct isPlaying0.
  - done.
  - done.
  - done.
  - done.
  - destruct Hsees as [Hh Hl]. unfold clickHistory. rewrite Hh, Hl.
    open_page p. by destruct showHistory0, showLyrics0.
  - destruct Hsees as [Hh Hl]. unfold clickLyrics, fetchLyrics.
    rewrite Hh, Hl. open_page p.
    destruct showHistory0, showLyrics0; try done; cbn;
      destruct (lyrics seen) as [l|]; try destruct (truthy_str l); cbn;
      try done; destruct (RadioMetadata.artist (metadata seen)); try done;
      by destruct (_ || _).
  - by destruct o as [e|[text|]].
  - open_page p. unfold clickInsight, getAiInsight. cbn.
    destruct isAiLoading0; [done|]. by destruct (_ || _).
  - by destruct o as [e|[text|]].
  - done.
  - done.
  - unfold slideVolume. by destruct (_ =? _)%Z.
  - rewrite mount_rendered.
    destruct (restore_panels (rendered (localStorage (core p)))) as (H1 & H2 & _).
    by rewrite H1, H2.
Qed.

Lemma panels_apart_mount storage : panels_apart (mount storage).
Proof.
  unfold panels_apart. rewrite mount_rendered.
  destruct (restore_panels (rendered storage)) as (H1 & H2 & _).
  by rewrite H1, H2.
Qed.

(** X14.  As long as every click on the history or the lyrics button is
    handled by a handler whose render saw the two panels as they are (the
    page was rendered since they last changed), the two panels are never
    open together, whatever else happens to a mounted page.  (Two clicks
    handled on one render can open both: [one_render_two_clicks].) *)
Theorem panels_never_both_open (events : list event)
    (storage : gmap string string) :
  panels_rendered JSON_stringify JSON_parse events (mount storage) →
  showHistory (ui (core (run events (mount storage)))) &&
  showLyrics (ui (core (run events (mount storage)))) = false.
Proof.
  pose proof (panels_apart_mount storage) as Hp. revert Hp.
  generalize (mount storage). unfold Controls.run.
  induction events as [|e events IH]; intros p Hp Hall; [done|].
  destruct Hall as [He Hall]. cbn [foldl].
  apply IH; [by apply panels_apart_step|done].
Qed.

(** *** The like flag *)

Lemma restore_like p :
  isLiked (ui (core p)) = false → like_agrees (restore p).
Proof.
  unfold like_agrees, Controls.restore. intros Hp.
  destruct (localStorage (core p) !! "radio_liked") as [savedLike|] eqn:Hl.
  - destruct (String.eqb savedLike "true") eqn:Heq.
    + apply String.eqb_eq in Heq as ->.
      cbn; destruct (localStorage (core p) !! "radio_history") as [saved|];
        [destruct (truthy_str saved); [destruct (JSON_parse saved)|]|];
        cbn; rewrite Hl; by rewrite bool_decide_eq_true_2.
    + apply String.eqb_neq in Heq.
      destruct (localStorage (core p) !! "radio_history") as [saved|];
        [destruct (truthy_str saved); [destruct (JSON_parse saved)|]|];
        cbn; rewrite ?Hp, Hl; rewrite bool_decide_eq_false_2; congruence.
  - destruct (localStorage (core p) !! "radio_history") as [saved|] eqn:Hh;
      [destruct (truthy_str saved); [destruct (JSON_parse saved)|]|];
      cbn; by rewrite ?Hp, Hl.
Qed.

Lemma like_agrees_mount storage : like_agrees (mount storage).
Proof. rewrite mount_rendered. by apply restore_like. Qed.

Lemma like_agrees_step p e : like_agrees p → like_agrees (step p e).
Proof.
  unfold like_agrees. intros Hp.
  destruct e as [w| | | | | |seen|seen|o| |o| | |v|]; cbn [Controls.step].
  - cbn [core ui localStorage].
    destruct (PlayerMoreFacts.fetchMetadata_cells JSON_stringify w (core p))
      as (_ & _ & _ & -> & _ & _ & _ & _ & _ & _ & Hkeys).
    by rewrite Hkeys.
  - open_page p. destruct audioRef0; [|done]. by destruct isPlaying0.
  - done.
  - done.
  - done.
  - open_page p. rewrite lookup_insert_eq. by destruct isLiked0.
  - unfold clickHistory. by destruct (showLyrics seen).
  - unfold clickLyrics, fetchLyrics.
    destruct (showHistory seen), (showLyrics seen); cbn; try done;
      destruct (lyrics seen) as [l|]; try destruct (truthy_str l); cbn;
      try done; destruct (RadioMetadata.artist (metadata seen)); try done;
      by destruct (_ || _).
  - by destruct o as [e|[text|]].
  - open_page p. unfold clickInsight, getAiInsight. cbn.
    destruct isAiLoading0; [done|]. by destruct (_ || _).
  - by destruct o as [e|[text|]].
  - done.
  - done.
  - unfold slideVolume. by destruct (_ =? _)%Z.
  - apply like_agrees_mount.
Qed.

(** X15.  Whatever happens to a mounted page (reloads included), the heart is on
    exactly when the text stored under ["radio_liked"] is ["true"]; so a
    reload shows the like flag as it was left. *)
Theorem like_survives_reload (events : list event)
    (storage : gmap string string) :
  (isLiked (ui (core (run events (mount storage)))) = true ↔
   localStorage (core (run events (mount storage))) !! "radio_liked" =
     Some "true") ∧
  isLiked (ui (core (step (run events (mount storage)) Reload))) =
  isLiked (ui (core (run events (mount storage)))).
Proof.
  pose proof (run_invariant like_agrees like_agrees_step events (mount storage)
                (like_agrees_mount storage)) as Hp.
  pose proof (like_agrees_step _ Reload Hp) as Hr.
  unfold like_agrees in *. split.
  - rewrite Hp. apply bool_decide_eq_true.
  - rewrite Hr, Hp. cbn [Controls.step]. rewrite mount_rendered.
    by destruct (restore_panels (rendered
                   (localStorage (core (run events (mount storage))))))
      as (_ & _ & _ & _ & _ & _ & _ & ->).
Qed.

(** *** The audio element *)

Lemma source_from_app current ops more :
  source_from current (ops ++ more) = source_from (source_from current ops) more.
Proof.
  revert current. induction ops as [|op ops IH]; intros current; [done|].
  destruct op; cbn; apply IH.
Qed.

Lemma source_app ops more : source (ops ++ more) = source_from (source ops) more.
Proof. apply source_from_app. Qed.

Lemma has_played_app ops more :
  has_played (ops ++ more) = has_played ops || has_played more.
Proof. apply existsb_app. Qed.

Lemma volume_from_app current ops more :
  volume_from current (ops ++ more) = volume_from (volume_from current ops) more.
Proof.
  revert current. induction ops as [|op ops IH]; intros current; [done|].
  destruct op; cbn; apply IH.
Qed.

Lemma element_follows_mount storage : element_follows (mount storage).
Proof.
  unfold element_follows. rewrite mount_rendered.
  destruct (restore_panels (rendered storage))
    as (_ & _ & -> & _ & _ & -> & _).
  done.
Qed.

Lemma element_follows_step p e : element_follows p → element_follows (step p e).
Proof.
  unfold element_follows. intros Hp.
  destruct e as [w| | | | | |seen|seen|o| |o| | |v|]; cbn [Controls.step].
  - cbn [core ui audioRef].
    by destruct (PlayerMoreFacts.fetchMetadata_cells JSON_stringify w (core p))
      as (-> & _).
  - open_page p. destruct audioRef0 as [ops|]; [|done]. cbn.
    destruct isPlaying0; cbn; rewrite source_app, has_played_app; cbn.
    + destruct Hp as [_ ->]. done.
    + by rewrite orb_true_r.
  - done.
  - done.
  - done.
  - done.
  - unfold clickHistory. by destruct (showLyrics seen).
  - unfold clickLyrics, fetchLyrics.
    destruct (showHistory seen), (showLyrics seen); cbn; try done;
      destruct (lyrics seen) as [l|]; try destruct (truthy_str l); cbn;
      try done; destruct (RadioMetadata.artist (metadata seen)); try done;
      by destruct (_ || _).
  - by destruct o as [e|[text|]].
  - open_page p. unfold clickInsight, getAiInsight. cbn.
    destruct isAiLoading0; [done|]. by destruct (_ || _).
  - by destruct o as [e|[text|]].
  - done.
  - open_page p. destruct audioRef0 as [ops|]; [|done]. cbn.
    rewrite source_app, has_played_app. cbn. by rewrite orb_false_r.
  - open_page p. unfold slideVolume. cbn. destruct (_ =? _)%Z; [done|].
    destruct audioRef0 as [ops|]; [|done]. cbn.
    rewrite source_app, has_played_app. cbn. by rewrite orb_false_r.
  - apply element_follows_mount.
Qed.

(** X16.  Whatever happens to a mounted page, while it shows playing the source
    of the audio element is the stream URL; while it does not, the source is
    empty once the stream has been played (a pause drops the stream), and
    the stream URL before. *)
Theorem element_follows_play_button (events : list event)
    (storage : gmap string string) :
  ∃ ops,
    audioRef (run events (mount storage)) = Some ops ∧
    if isPlaying (ui (core (run events (mount storage))))
    then source ops = STREAM_URL
    else source ops = if has_played ops then EmptyString else STREAM_URL.
Proof.
  pose proof (run_invariant element_follows element_follows_step events
                (mount storage) (element_follows_mount storage)) as Hp.
  unfold element_follows in Hp.
  destruct (audioRef (run events (mount storage))) as [ops|]; [|done].
  exists ops. split; [done|].
  destruct (isPlaying (ui (core (run events (mount storage))))); [|done].
  by destruct Hp.
Qed.

Lemma volume_follows_mount storage : volume_follows (mount storage).
Proof.
  unfold volume_follows. rewrite mount_rendered.
  destruct (restore_panels (rendered storage))
    as (_ & _ & _ & -> & -> & -> & _).
  done.
Qed.

Lemma volume_follows_step p e :
  in_range e → volume_follows p → volume_follows (step p e).
Proof.
  unfold volume_follows. intros He [Hrange Hp].
  destruct e as [w| | | | | |seen|seen|o| |o| | |v|]; cbn [Controls.step].
  - cbn [core ui audioRef].
    by destruct (PlayerMoreFacts.fetchMetadata_cells JSON_stringify w (core p))
      as (_ & -> & -> & _).
  - open_page p. destruct audioRef0 as [ops|]; [|done]. cbn.
    unfold element_volume in *.
    destruct isPlaying0; cbn; rewrite volume_from_app; cbn; by rewrite Hp.
  - done.
  - done.
  - done.
  - done.
  - unfold clickHistory. by destruct (showLyrics seen).
  - unfold clickLyrics, fetchLyrics.
    destruct (showHistory seen), (showLyrics seen); cbn; try done;
      destruct (lyrics seen) as [l|]; try destruct (truthy_str l); cbn;
      try done; destruct (RadioMetadata.artist (metadata seen)); try done;
      by destruct (_ || _).
  - by destruct o as [e|[text|]].
  - open_page p. unfold clickInsight, getAiInsight. cbn.
    destruct isAiLoading0; [done|]. by destruct (_ || _).
  - by destruct o as [e|[text|]].
  - done.
  - open_page p. destruct audioRef0 as [ops|]; [|done]. cbn.
    unfold element_volume in *. by rewrite volume_from_app.
  - open_page p. unfold slideVolume. cbn. destruct (_ =? _)%Z; [done|].
    destruct audioRef0 as [ops|]; [|done]. cbn.
    unfold element_volume in *. by rewrite volume_from_app.
  - apply volume_follows_mount.
Qed.

(** X17.  With the slider giving values from 0 to 100, the volume last assigned
    to the audio element is always the one on display (0 when muted), and
    lies between 0 and 100 hundredths. *)
Theorem element_volume_follows_display (events : list event)
    (storage : gmap string string) :
  Forall in_range events →
  ∃ ops n,
    audioRef (run events (mount storage)) = Some ops ∧
    element_volume ops = Some n ∧
    n = (if isMuted (ui (core (run events (mount storage)))) then 0%Z
         else volume (ui (core (run events (mount storage))))) ∧
    (0 ≤ n ≤ 100)%Z.
Proof.
  intros Hall.
  pose proof (run_invariant_on in_range volume_follows volume_follows_step
                events (mount storage) Hall (volume_follows_mount storage))
    as [Hrange Hp].
  destruct (audioRef (run events (mount storage))) as [ops|]; [|done].
  eexists ops, _. split; [done|]. split; [done|]. split; [done|].
  destruct (isMuted _); lia.
Qed.

(** *** The history across reloads *)

Lemma restore_history p :
  length (history (ui (core p))) ≤ 10 →
  stored_history_short JSON_parse (localStorage (core p)) →
  history_short JSON_parse (restore p).
Proof.
  unfold history_short, stored_history_short, Controls.restore.
  intros Hlen Hstored.
  destruct (localStorage (core p) !! "radio_liked") as [savedLike|];
    [destruct (String.eqb savedLike "true")|]; cbn;
    destruct (localStorage (core p) !! "radio_history") as [saved|] eqn:Hh;
    try (destruct (truthy_str saved); [destruct (JSON_parse saved) eqn:Hparse|]);
    cbn; rewrite ?Hh, ?Hparse; done.
Qed.

Lemma history_short_step p e :
  reads_back_short → history_short JSON_parse p → history_short JSON_parse (step p e).
Proof.
  unfold history_short. intros Hback [Hlen Hstored].
  destruct e as [w| | | | | |seen|seen|o| |o| | |v|]; cbn [Controls.step].
  - cbn [core ui localStorage].
    destruct (PlayerFacts.fetchMetadata_history JSON_stringify w (core p))
      as [[-> ->]|(item & _ & Hh & Hls)]; [done|].
    rewrite Hh, Hls. split; [rewrite length_take; lia|].
    unfold stored_history_short. rewrite lookup_insert_eq.
    apply Hback. rewrite length_take. lia.
  - open_page p. destruct audioRef0; [|done]. by destruct isPlaying0.
  - done.
  - done.
  - done.
  - open_page p. split; [done|]. unfold stored_history_short in *.
    by rewrite lookup_insert_ne.
  - unfold clickHistory. by destruct (showLyrics seen).
  - unfold clickLyrics, fetchLyrics.
    destruct (showHistory seen), (showLyrics seen); cbn; try done;
      destruct (lyrics seen) as [l|]; try destruct (truthy_str l); cbn;
      try done; destruct (RadioMetadata.artist (metadata seen)); try done;
      by destruct (_ || _).
  - by destruct o as [e|[text|]].
  - open_page p. unfold clickInsight, getAiInsight. cbn.
    destruct isAiLoading0; [done|]. by destruct (_ || _).
  - by destruct o as [e|[text|]].
  - done.
  - done.
  - unfold slideVolume. by destruct (_ =? _)%Z.
  - rewrite mount_rendered. apply restore_history; [cbn; lia|done].
Qed.

(** X18.  With a stored history of at most 10 entries (or none, or one that does
    not parse), and short histories reading back short, the history on
    display has at most 10 entries whatever happens to the page, reloads
    included. *)
Theorem history_short_across_reloads (events : list event)
    (storage : gmap string string) :
  (∀ h, length h ≤ 10 →
        match JSON_parse (JSON_stringify h) with
        | inr h' => length h' ≤ 10
        | inl _ => True
        end) →
  stored_history_short JSON_parse storage →
  length (history (ui (core (run events (mount storage))))) ≤ 10.
Proof.
  intros Hback Hstored.
  apply (run_invariant (history_short JSON_parse)
           (λ p e, history_short_step p e Hback) events (mount storage)).
  rewrite mount_rendered. apply restore_history; [cbn; lia|done].
Qed.

Lemma restore_reads p saved h :
  localStorage (core p) !! "radio_history" = Some saved →
  truthy_str saved = true →
  JSON_parse saved = inr h →
  history (ui (core (restore p))) = h.
Proof.
  intros Hsaved Htruthy Hparse. unfold Controls.restore.
  destruct (localStorage (core p) !! "radio_liked") as [savedLike|];
    [destruct (String.eqb savedLike "true")|];
    cbn; by rewrite Hsaved, Htruthy, Hparse.
Qed.

(** X19.  A history that a run of [fetchMetadata] has just extended is the one on
    display after a reload, provided the stored text is not empty and
    parses back to it. *)
Theorem reload_restores_history (p : page) (w : world) :
  history (ui (core (step p (Poll w)))) ≠ history (ui (core p)) →
  JSON_stringify (history (ui (core (step p (Poll w))))) ≠ EmptyString →
  JSON_parse (JSON_stringify (history (ui (core (step p (Poll w)))))) =
    inr (history (ui (core (step p (Poll w))))) →
  history (ui (core (step (step p (Poll w)) Reload))) =
  history (ui (core (step p (Poll w)))).
Proof.
  cbn [Controls.step core ui localStorage].
  destruct (PlayerFacts.fetchMetadata_history JSON_stringify w (core p))
    as [[-> _]|(item & _ & Hh & Hls)]; [done|].
  rewrite Hh. intros _ Hne Hparse.
  apply (restore_reads _ (JSON_stringify (take 10 (item :: history (ui (core p)))))).
  - cbn. by rewrite Hls, lookup_insert_eq.
  - by destruct (JSON_stringify _).
  - done.
Qed.

(** *** The requests sent out *)

Lemma truthy_nonempty s : truthy_str s = true → s ≠ EmptyString.
Proof. by destruct s. Qed.

Lemma requests_name_tracks_step p e :
  requests_name_tracks p → requests_name_tracks (step p e).
Proof.
  unfold requests_name_tracks. intros Hp.
  destruct e as [w| | | | | |seen|seen|o| |o| | |v|]; cbn [Controls.step].
  - done.
  - open_page p. destruct audioRef0; [|done]. by destruct isPlaying0.
  - done.
  - done.
  - done.
  - done.
  - unfold clickHistory. by destruct (showLyrics seen).
  - unfold clickLyrics, fetchLyrics.
    destruct (showHistory seen), (showLyrics seen); cbn; try done;
      destruct (lyrics seen) as [l|]; try destruct (truthy_str l); cbn;
      try done;
      destruct (RadioMetadata.artist (metadata seen)) as [artist|]; try done;
      destruct (truthy_str (RadioMetadata.songtitle (metadata seen))) eqn:Ht;
      try done; destruct (truthy_str artist) eqn:Ha; try done;
      destruct (String.eqb _ _) eqn:Hc; try done; cbn;
      apply Forall_app; (split; [done|]); apply Forall_singleton;
      apply truthy_nonempty in Ht, Ha; apply String.eqb_neq in Hc; done.
  - by destruct o as [e|[text|]].
  - open_page p. unfold clickInsight, getAiInsight. cbn.
    destruct isAiLoading0; [done|].
    destruct (truthy_str (RadioMetadata.songtitle metadata0)) eqn:Ht;
      [|done]. destruct (String.eqb _ _) eqn:Hc; [done|]. cbn.
    apply Forall_app; split; [done|]. apply Forall_singleton.
    apply truthy_nonempty in Ht. apply String.eqb_neq in Hc. done.
  - by destruct o as [e|[text|]].
  - done.
  - done.
  - unfold slideVolume. by destruct (_ =? _)%Z.
  - rewrite mount_rendered.
    destruct (restore_panels (rendered (localStorage (core p))))
      as (_ & _ & _ & _ & _ & _ & -> & _).
    apply Forall_nil_2.
Qed.

(** X20.  No request for an insight or for lyrics is ever sent for the empty
    title or for the loading placeholder, and none for lyrics without an
    artist. *)
Theorem requests_always_name_a_track (events : list event)
    (storage : gmap string string) :
  Forall names_a_track (outbox (run events (mount storage))).
Proof.
  apply (run_invariant requests_name_tracks requests_name_tracks_step).
  unfold requests_name_tracks. rewrite mount_rendered.
  destruct (restore_panels (rendered storage))
    as (_ & _ & _ & _ & _ & _ & -> & _).
  apply Forall_nil_2.
Qed.

End Page.

Lemma panels_never_both_open_witness :
  showHistory (ui (core (Controls.run toy_stringify toy_parse_history
                           afternoon (Controls.mount toy_parse_history ∅)))) &&
  showLyrics (ui (core (Controls.run toy_stringify toy_parse_history
                          afternoon (Controls.mount toy_parse_history ∅)))) =
  false.
Proof.
  apply (panels_never_both_open toy_stringify toy_parse_history afternoon ∅).
  cbn. repeat split.
Defined.

(** Both buttons clicked on the first render: each handler sees both panels
    closed, the first opens the history, the second opens the lyrics and
    does not close the history. *)
Example one_render_two_clicks :
  let p := Controls.run toy_stringify toy_parse_history
             [ClickHistory initial; ClickLyrics initial]
             (Controls.mount toy_parse_history ∅) in
  showHistory (ui (core p)) = true ∧ showLyrics (ui (core p)) = true.
Proof. by cbn. Qed.

Lemma history_short_across_reloads_witness :
  length (history (ui (core (Controls.run toy_stringify toy_parse_history
                              afternoon (Controls.mount toy_parse_history ∅))))) ≤ 10.
Proof.
  apply (history_short_across_reloads toy_stringify toy_parse_history afternoon ∅).
  - intros h _. unfold toy_parse_history.
    destruct (String.eqb _ _); [cbn; lia|exact I].
  - unfold stored_history_short. rewrite lookup_empty. exact I.
Defined.

Lemma reload_restores_history_witness :
  history (ui (core (Controls.step toy_stringify toy_parse_history
                       (Controls.step toy_stringify toy_parse_history
                          (Controls.mount toy_parse_history ∅)
                          (Poll (playing "A - 1" 1)))
                       Reload))) =
  history (ui (core (Controls.step toy_stringify toy_parse_history
                       (Controls.mount toy_parse_history ∅)
                       (Poll (playing "A - 1" 1))))).
Proof.
  apply (reload_restores_history toy_stringify toy_parse_history
           (Controls.mount toy_parse_history ∅) (playing "A - 1" 1));
    [discriminate|discriminate|reflexivity].
Defined.

Lemma element_volume_follows_display_witness :
  ∃ ops n,
    audioRef (Controls.run toy_stringify toy_parse_history afternoon
                (Controls.mount toy_parse_history ∅)) = Some ops ∧
    element_volume ops = Some n ∧
    n = (if isMuted (ui (core (Controls.run toy_stringify toy_parse_history
                                 afternoon (Controls.mount toy_parse_history ∅))))
         then 0%Z
         else volume (ui (core (Controls.run toy_stringify toy_parse_history
                                  afternoon (Controls.mount toy_parse_history ∅))))) ∧
    (0 ≤ n ≤ 100)%Z.
Proof.
  apply (element_volume_follows_display toy_stringify toy_parse_history
           afternoon ∅).
  unfold afternoon.
  repeat (apply Forall_cons_2; [cbn; try exact I; lia|]). apply Forall_nil_2.
Defined.

End ControlsFacts.
